(** * django-imagefield: the image processing pipeline

    A shallow embedding of [imagefield/processing.py]: the processor
    registry ([PROCESSORS], [register]), the pipeline builder
    ([build_handler]), the built-in processors and the render driver
    ([process_image]).

    Pillow and the Django storage are external collaborators of the
    module; they are taken as interfaces ([Pillow], [Storage]) and every
    general statement holds for all their implementations.  A small
    reference implementation of both is given further down so that the
    definitions can be run on concrete inputs.

    Python floats are IEEE 754 binary64 numbers; they are modelled by
    [spec_float] with precision 53 and maximal exponent 1024, and the
    bounds on the crop rectangle are proved from the rounding of these
    operations, with the real numbers for their values. *)

From Stdlib Require Import ZArith Lia Reals Lra SpecFloat.
From Stdlib.Strings Require Import Byte.
From stdpp Require Import base option list strings gmap.

Local Open Scope Z_scope.

(** ** Python values, exceptions and results *)

(** The exceptions the module can raise or let through. *)
Inductive exn : Type :=
  | KeyError (key : string)
  | IndexError
  | ZeroDivisionError
  | OverflowError
  | ValueError
  | TypeError
  | OSError.

Inductive Result (A : Type) : Type :=
  | Ok (a : A)
  | Raise (e : exn).
Arguments Ok {A} a.
Arguments Raise {A} e.

#[global] Instance Result_ret : MRet Result := fun _ a => Ok a.
#[global] Instance Result_bind : MBind Result := fun _ _ f m =>
  match m with
  | Ok a => f a
  | Raise e => Raise e
  end.

(** The values stored in [image.info] and [context.save_kwargs]. *)
Inductive pyval : Type :=
  | VNone
  | VBool (b : bool)
  | VInt (n : Z)
  | VBytes (bs : list byte).

Abbreviation bytes := (list byte).
Abbreviation pydict := (gmap string pyval).

(** [d.get(k)]: the value, or [None] when the key is absent. *)
Definition dict_get (d : pydict) (k : string) : pyval :=
  default VNone (d !! k).

(** ** Floats *)

Abbreviation float := spec_float.
Definition prec : Z := 53.
Definition emax : Z := 1024.

(** The literal [0.5]. *)
Definition half : float := S754_finite false 4503599627370496 (-53).

(** [float(n)] for an int, also the conversion of the int operand of a
    mixed product: correctly rounded, [OverflowError] when out of range. *)
Definition py_float (n : Z) : Result float :=
  match binary_normalize prec emax n 0 false with
  | S754_infinity _ => Raise OverflowError
  | x => Ok x
  end.

(** [a / b] on floats. *)
Definition py_truediv (a b : float) : Result float :=
  match b with
  | S754_zero _ => Raise ZeroDivisionError
  | _ => Ok (SFdiv prec emax a b)
  end.

Definition py_mul (a b : float) : float := SFmul prec emax a b.
Definition py_add (a b : float) : float := SFadd prec emax a b.

(** [a >= b] on floats. *)
Definition py_ge (a b : float) : bool := SFleb b a.

(** [int(x)]: truncation toward zero. *)
Definition py_int (x : float) : Result Z :=
  match x with
  | S754_zero _ => Ok 0
  | S754_infinity _ => Raise OverflowError
  | S754_nan => Raise ValueError
  | S754_finite s m e =>
      let a := match e with
               | Zneg p => Z.pos m / 2 ^ Z.pos p
               | _ => Z.pos m * 2 ^ e
               end in
      Ok (if s then - a else a)
  end.

(** ** The real number a float stands for *)

Definition pow2 (e : Z) : R := powerRZ 2 e.

Definition F2R (x : float) : R :=
  match x with
  | S754_finite s m e =>
      if s then (- (IZR (Z.pos m) * pow2 e))%R else (IZR (Z.pos m) * pow2 e)%R
  | _ => 0%R
  end.

(** The bound on the relative error of one operation used below: 2^-52. *)
Definition eps : R := (/ IZR (2 ^ 52))%R.

(** Neither an infinity nor a NaN. *)
Definition is_finite (x : float) : bool :=
  match x with
  | S754_zero _ | S754_finite _ _ _ => true
  | _ => false
  end.

(** A positive normal float, its exponent within the given range. *)
Definition normal (x : float) (lo hi : Z) : Prop :=
  exists m e, x = S754_finite false m e /\ Z.pos (digits2_pos m) = 53 /\ lo <= e <= hi.

(** The literal [1.0]. *)
Definition one : float := S754_finite false 4503599627370496 (-52).

(** A float that is a fraction within [0, 1]: the range of both
    coordinates of the point of interest. *)
Definition in_unit_interval (x : float) : Prop :=
  valid_binary prec emax x = true
  /\ SFleb (S754_zero false) x = true
  /\ SFleb x one = true.

(** ** Pillow *)

(** [Image.ROTATE_90], [Image.ROTATE_180], [Image.ROTATE_270] and
    [Image.BICUBIC] are integer constants of Pillow. *)
Definition ROTATE_90 : Z := 2.
Definition ROTATE_180 : Z := 3.
Definition ROTATE_270 : Z := 4.
Definition BICUBIC : Z := 3.

(** The part of Pillow the module calls.  Methods that mutate the image in
    place ([putpalette], [thumbnail]) return the mutated image. *)
Class Pillow : Type := {
  Image : Type;
  Image_open : bytes -> Result Image;
  Image_save : Image -> option string -> pydict -> Result bytes;
  Image_format : Image -> option string;
  Image_mode : Image -> string;
  Image_size : Image -> Z * Z;
  Image_info : Image -> pydict;
  (** [hasattr(image, '_getexif')] *)
  Image_has_getexif : Image -> bool;
  (** [image._getexif()]: [None] or a dict from tag to value *)
  Image_getexif : Image -> Result (option (gmap Z Z));
  Image_transpose : Image -> Z -> Result Image;
  Image_convert : Image -> string -> Result Image;
  Image_getpalette : Image -> option (list Z);
  Image_putpalette : Image -> option (list Z) -> Result Image;
  Image_copy : Image -> Result Image;
  Image_thumbnail : Image -> Z * Z -> Z -> Result Image;
  Image_crop : Image -> Z * Z * Z * Z -> Result Image;
  Image_resize : Image -> Z * Z -> Z -> Result Image;
}.

(** ** Handlers, factories and the registry *)

Section Processing.
Context `{Pillow}.

(** [SimpleNamespace(ppoi=..., save_kwargs={})] *)
Record Context_ : Type := {
  ppoi : float * float;
  save_kwargs : pydict;
}.

Definition set_save_kwarg (context : Context_) (k : string) (v : pyval) : Context_ :=
  {| ppoi := ppoi context; save_kwargs := <[k := v]> (save_kwargs context) |}.

(** A handler takes the image and the context and returns both. *)
Definition Handler : Type := Image -> Context_ -> Result (Image * Context_).

(** The arguments of a spec, [part[1:]]: each one a pair of ints.  An
    argument of another shape, which [width, height = args[0]] of [crop]
    rejects with [ValueError] or [TypeError], is not represented. *)
Definition Args : Type := list (Z * Z).

(** A processor factory: [fn(get_image, args)] returns the processor. *)
Definition Factory : Type := Handler -> Args -> Result Handler.

(** A function object, with the name [register] files it under. *)
Record Function : Type := {
  __name__ : string;
  __call__ : Factory;
}.

(** An entry of the list given to [build_handler]: a bare name, or a
    list or tuple whose first item is the name. *)
Inductive ProcessorSpec : Type :=
  | Bare (name : string)
  | WithArgs (name : string) (args : Args).

Definition spec_name (part : ProcessorSpec) : string :=
  match part with
  | Bare name => name
  | WithArgs name _ => name
  end.

(** [PROCESSORS[name]] *)
Definition getitem (PROCESSORS : gmap string Factory) (name : string) : Result Factory :=
  match PROCESSORS !! name with
  | Some fn => Ok fn
  | None => Raise (KeyError name)
  end.

(** The initial handler: it returns its arguments. *)
Definition identity_handler : Handler := fun image context => Ok (image, context).

(** The [for part in processors] loop of [build_handler]. *)
Fixpoint build_handler_loop (PROCESSORS : gmap string Factory)
    (handler : Handler) (processors : list ProcessorSpec) : Result Handler :=
  match processors with
  | [] => Ok handler
  | part :: rest =>
      handler' ← match part with
                 | WithArgs name args =>
                     fn ← getitem PROCESSORS name; fn handler args
                 | Bare name =>
                     fn ← getitem PROCESSORS name; fn handler []
                 end;
      build_handler_loop PROCESSORS handler' rest
  end.

Definition build_handler (PROCESSORS : gmap string Factory)
    (processors : list ProcessorSpec) : Result Handler :=
  build_handler_loop PROCESSORS identity_handler processors.

(** [register(fn)]: the function and the updated registry. *)
Definition register (fn : Function) (PROCESSORS : gmap string Factory)
    : Function * gmap string Factory :=
  (fn, <[__name__ fn := __call__ fn]> PROCESSORS).

(** The factory call the loop makes for one entry. *)
Definition wrap (PROCESSORS : gmap string Factory) (handler : Handler)
    (part : ProcessorSpec) : Result Handler :=
  match part with
  | WithArgs name args => fn ← getitem PROCESSORS name; fn handler args
  | Bare name => fn ← getitem PROCESSORS name; fn handler []
  end.

(** ** The built-in processors *)

(** [args[0]] *)
Definition args_0 (args : Args) : Result (Z * Z) :=
  match args with
  | a :: _ => Ok a
  | [] => Raise IndexError
  end.

(** The dict literal of [autorotate]. *)
Definition rotations : gmap Z Z :=
  <[3 := ROTATE_180]> (<[6 := ROTATE_270]> (<[8 := ROTATE_90]> ∅)).

Definition autorotate (get_image : Handler) (args : Args) : Result Handler :=
  Ok (fun image context =>
    if negb (Image_has_getexif image) then get_image image context else
    exif ← Image_getexif image;
    match exif with
    | None => get_image image context
    | Some exif =>
        if decide (exif = ∅) then get_image image context else
        let orientation := exif !! 274 in
        let rotation := orientation ≫= (fun o => rotations !! o) in
        match rotation with
        | Some rotation =>
            if decide (rotation ≠ 0) then
              image' ← Image_transpose image rotation;
              get_image image' context
            else get_image image context
        | None => get_image image context
        end
    end).

Definition preprocess_jpeg (get_image : Handler) (args : Args) : Result Handler :=
  Ok (fun image context =>
    if decide (Image_format image = Some "JPEG") then
      let context := set_save_kwarg context "quality" (VInt 90) in
      let context := set_save_kwarg context "progressive" (VBool true) in
      image ← (if decide (Image_mode image ≠ "RGB")
               then Image_convert image "RGB" else Ok image);
      get_image image context
    else get_image image context).

Definition preprocess_gif (get_image : Handler) (args : Args) : Result Handler :=
  Ok (fun image context =>
    if decide (Image_format image = Some "GIF") then
      let context :=
        match Image_info image !! "transparency" with
        | Some transparency => set_save_kwarg context "transparency" transparency
        | None => context
        end in
      let palette := Image_getpalette image in
      '(image, context) ← get_image image context;
      image ← Image_putpalette image palette;
      Ok (image, context)
    else get_image image context).

Definition preserve_icc_profile (get_image : Handler) (args : Args) : Result Handler :=
  Ok (fun image context =>
    let context :=
      set_save_kwarg context "icc_profile" (dict_get (Image_info image) "icc_profile") in
    get_image image context).

Definition thumbnail (get_image : Handler) (args : Args) : Result Handler :=
  Ok (fun image context =>
    image ← Image_copy image;
    size ← args_0 args;
    image ← Image_thumbnail image size BICUBIC;
    get_image image context).

(** Lines 137 to 183 of the processor of [crop]: the four boundaries
    handed to [image.crop], as (left, top, right, bottom). *)
Definition crop_boundaries (size : Z * Z) (ppoi : float * float)
    (width height : Z) : Result (Z * Z * Z * Z) :=
  size_0 ← py_float size.1;
  ppoi_x_axis ← py_int (py_mul size_0 ppoi.1);
  size_1 ← py_float size.2;
  ppoi_y_axis ← py_int (py_mul size_1 ppoi.2);
  let center_pixel_coord := (ppoi_x_axis, ppoi_y_axis) in
  size_0 ← py_float size.1;
  size_1 ← py_float size.2;
  orig_aspect_ratio ← py_truediv size_0 size_1;
  width' ← py_float width;
  height' ← py_float height;
  crop_aspect_ratio ← py_truediv width' height';
  if py_ge orig_aspect_ratio crop_aspect_ratio then
    size_1 ← py_float size.2;
    orig_crop_width ← py_int (py_add (py_mul crop_aspect_ratio size_1) half);
    let orig_crop_height := size.2 in
    let crop_boundary_top := 0 in
    let crop_boundary_bottom := orig_crop_height in
    let crop_boundary_left := center_pixel_coord.1 - orig_crop_width / 2 in
    let crop_boundary_right := crop_boundary_left + orig_crop_width in
    if decide (crop_boundary_left < 0) then
      let crop_boundary_left := 0 in
      let crop_boundary_right := crop_boundary_left + orig_crop_width in
      Ok (crop_boundary_left, crop_boundary_top,
          crop_boundary_right, crop_boundary_bottom)
    else if decide (crop_boundary_right > size.1) then
      let crop_boundary_right := size.1 in
      let crop_boundary_left := size.1 - orig_crop_width in
      Ok (crop_boundary_left, crop_boundary_top,
          crop_boundary_right, crop_boundary_bottom)
    else
      Ok (crop_boundary_left, crop_boundary_top,
          crop_boundary_right, crop_boundary_bottom)
  else
    let orig_crop_width := size.1 in
    size_0 ← py_float size.1;
    quotient ← py_truediv size_0 crop_aspect_ratio;
    orig_crop_height ← py_int (py_add quotient half);
    let crop_boundary_left := 0 in
    let crop_boundary_right := orig_crop_width in
    let crop_boundary_top := center_pixel_coord.2 - orig_crop_height / 2 in
    let crop_boundary_bottom := crop_boundary_top + orig_crop_height in
    if decide (crop_boundary_top < 0) then
      let crop_boundary_top := 0 in
      let crop_boundary_bottom := crop_boundary_top + orig_crop_height in
      Ok (crop_boundary_left, crop_boundary_top,
          crop_boundary_right, crop_boundary_bottom)
    else if decide (crop_boundary_bottom > size.2) then
      let crop_boundary_bottom := size.2 in
      let crop_boundary_top := size.2 - orig_crop_height in
      Ok (crop_boundary_left, crop_boundary_top,
          crop_boundary_right, crop_boundary_bottom)
    else
      Ok (crop_boundary_left, crop_boundary_top,
          crop_boundary_right, crop_boundary_bottom).

Definition crop (get_image : Handler) (args : Args) : Result Handler :=
  '(width, height) ← args_0 args;
  Ok (fun image context =>
    boundaries ← crop_boundaries (Image_size image) (ppoi context) width height;
    cropped_image ← Image_crop image boundaries;
    resized ← Image_resize cropped_image (width, height) BICUBIC;
    get_image resized context).

(** The registry after the module is imported: the six [@register]
    decorators, in the order of the file. *)
Definition PROCESSORS : gmap string Factory :=
  let P := (register {| __name__ := "autorotate"; __call__ := autorotate |} ∅).2 in
  let P := (register {| __name__ := "preprocess_jpeg"; __call__ := preprocess_jpeg |} P).2 in
  let P := (register {| __name__ := "preprocess_gif"; __call__ := preprocess_gif |} P).2 in
  let P := (register {| __name__ := "preserve_icc_profile";
                        __call__ := preserve_icc_profile |} P).2 in
  let P := (register {| __name__ := "thumbnail"; __call__ := thumbnail |} P).2 in
  (register {| __name__ := "crop"; __call__ := crop |} P).2.

End Processing.

(** ** The crop rectangle

    The rectangle as the specification words it, to be compared with
    [crop_boundaries]: the focus pixel, the comparison of the two aspect
    ratios, the extent of the crop along the trimmed axis rounded half up,
    the window centred on the focus, and the shift that brings the window
    back inside the image. *)

(** [int(extent * fraction)] *)
Definition focus_pixel (extent : Z) (fraction : float) : Result Z :=
  extent' ← py_float extent; py_int (py_mul extent' fraction).

(** [int(x + 0.5)] *)
Definition round_half_up (x : float) : Result Z := py_int (py_add x half).

(** Which axis is trimmed ([true]: left and right), the focus pixel, and
    the extent of the crop along the trimmed axis. *)
Definition crop_plan (w h tw th : Z) (px py : float) : Result (bool * (Z * Z) * Z) :=
  focus_x ← focus_pixel w px;
  focus_y ← focus_pixel h py;
  w' ← py_float w;
  h' ← py_float h;
  orig_aspect ← py_truediv w' h';
  tw' ← py_float tw;
  th' ← py_float th;
  target_aspect ← py_truediv tw' th';
  if py_ge orig_aspect target_aspect then
    crop_width ← round_half_up (py_mul target_aspect h');
    Ok (true, (focus_x, focus_y), crop_width)
  else
    quotient ← py_truediv w' target_aspect;
    crop_height ← round_half_up quotient;
    Ok (false, (focus_x, focus_y), crop_height).

(** The window of the given extent centred on the focus. *)
Definition centred (focus extent : Z) : Z * Z :=
  (focus - extent / 2, focus - extent / 2 + extent).

(** The window shifted, not shrunk, to lie within [0, limit]. *)
Definition shifted (window : Z * Z) (extent limit : Z) : Z * Z :=
  if decide (window.1 < 0) then (0, extent)
  else if decide (window.2 > limit) then (limit - extent, limit)
  else window.

Definition planned_rectangle (w h : Z) (plan : bool * (Z * Z) * Z) : Z * Z * Z * Z :=
  let '(wide, (focus_x, focus_y), extent) := plan in
  if wide then
    let '(x0, x1) := shifted (centred focus_x extent) extent w in (x0, 0, x1, h)
  else
    let '(y0, y1) := shifted (centred focus_y extent) extent h in (0, y0, w, y1).

(** The literal [0.01]. *)
Definition one_hundredth : float := S754_finite false 5764607523034235 (-59).

(** ** The render driver *)

(** The storage of a Django file field ([file.storage]): a state and the
    four operations the driver uses.  [storage_open] only reads. *)
Class Storage : Type := {
  storage_state : Type;
  storage_exists : storage_state -> string -> Result bool;
  storage_open : storage_state -> string -> Result bytes;
  storage_delete : storage_state -> string -> Result unit * storage_state;
  storage_save : storage_state -> string -> bytes -> Result string * storage_state;
}.

(** The calls [process_image] makes, in the order of the source. *)
Inductive Call : Type :=
  | Call_storage_exists (target : string)
  | Call_file_open (name : string)
  | Call_Image_open
  | Call_build_handler
  | Call_handler
  | Call_image_save
  | Call_storage_delete (target : string)
  | Call_storage_save (target : string) (content : bytes).

(** [storage.delete] and [storage.save] are the calls that change the
    storage. *)
Definition is_mutation (c : Call) : bool :=
  match c with
  | Call_storage_delete _ | Call_storage_save _ _ => true
  | _ => false
  end.

Section Driver.
Context `{Pillow} `{Storage}.

(** The world a render runs in: the storage and the calls made so far,
    oldest first. *)
Record World : Type := {
  storage : storage_state;
  calls : list Call;
}.

Definition M (A : Type) : Type := World -> Result A * World.

#[global] Instance M_ret : MRet M := fun _ a w => (Ok a, w).
#[global] Instance M_bind : MBind M := fun _ _ f m w =>
  match m w with
  | (Ok a, w') => f a w'
  | (Raise e, w') => (Raise e, w')
  end.

Definition record_call (c : Call) (w : World) : World :=
  {| storage := storage w; calls := calls w ++ [c] |}.

(** A call that leaves the storage as it is. *)
Definition call {A : Type} (c : Call) (f : storage_state -> Result A) : M A :=
  fun w => (f (storage w), record_call c w).

(** A call that may change the storage. *)
Definition call_mut {A : Type} (c : Call)
    (f : storage_state -> Result A * storage_state) : M A :=
  fun w =>
    let '(r, st) := f (storage w) in
    (r, {| storage := st; calls := calls w ++ [c] |}).

(** The file object handed to [process_image]: [file.name], with
    [file.open] reading that name from [file.storage]. *)
Record FieldFile : Type := {
  file_name : string;
}.

(** The default of the [always] parameter. *)
Definition always_default : list ProcessorSpec :=
  [Bare "autorotate"; Bare "preprocess_jpeg"; Bare "preprocess_gif";
   Bare "preserve_icc_profile"].

(** [ext], split off [file.name], is not used afterwards and is left out. *)
Definition process_image (PROCESSORS : gmap string Factory) (file : FieldFile)
    (target : string) (processors : list ProcessorSpec) (ppoi : float * float)
    (force : bool) (always : list ProcessorSpec) : M unit :=
  done ← (if negb force
          then call (Call_storage_exists target) (fun st => storage_exists st target)
          else mret false);
  if (done : bool) then mret tt else
  orig ← call (Call_file_open (file_name file))
            (fun st => storage_open st (file_name file));
  image ← call Call_Image_open (fun _ => Image_open orig);
  let context := {| ppoi := ppoi; save_kwargs := ∅ |} in
  let format := Image_format image in
  handler ← call Call_build_handler
               (fun _ => build_handler PROCESSORS (always ++ processors));
  '(image, context) ← call Call_handler (fun _ => handler image context);
  buf ← call Call_image_save
           (fun _ => Image_save image format (save_kwargs context));
  _ ← call_mut (Call_storage_delete target) (fun st => storage_delete st target);
  _ ← call_mut (Call_storage_save target buf) (fun st => storage_save st target buf);
  mret tt.

(** What a render computes before it touches the storage.

    Lines 29 to 42 of [process_image] as one result: the source is read
    and decoded, the handler is built and called, the final image is
    encoded into the buffer.  It is the statement-side view of the body of
    [process_image]; [process_image_failure_leaves_storage] and
    [process_image_stores_rendition] relate the two. *)

Definition rendition (PROCESSORS : gmap string Factory) (file : FieldFile)
    (processors : list ProcessorSpec) (ppoi : float * float)
    (always : list ProcessorSpec) (st : storage_state) : Result bytes :=
  orig ← storage_open st (file_name file);
  image ← Image_open orig;
  handler ← build_handler PROCESSORS (always ++ processors);
  '(image', context) ← handler image {| ppoi := ppoi; save_kwargs := ∅ |};
  Image_save image' (Image_format image) (save_kwargs context).

(** No call in the list changes the storage. *)
Definition no_mutation (cs : list Call) : Prop :=
  Forall (fun c => is_mutation c = false) cs.

(** The render does not return at once: [force] is on, or the storage
    answers that the target does not exist. *)
Definition proceeds (force : bool) (w : World) (target : string) : Prop :=
  force = true \/ storage_exists (storage w) target = Ok false.

End Driver.

(** ** Entries, save options and call sequences

    The notions the properties of the builder, of the pipeline and of the
    driver are stated with. *)

(** [part[1:]], the arguments the loop hands to the factory; none for a
    bare name. *)
Definition spec_args (part : ProcessorSpec) : Args :=
  match part with
  | Bare _ => []
  | WithArgs _ args => args
  end.

(** The names the six decorators register. *)
Definition processor_names : list string :=
  ["autorotate"; "preprocess_jpeg"; "preprocess_gif"; "preserve_icc_profile";
   "thumbnail"; "crop"].

(** An entry the built-in registry can build: its name is registered, and
    an entry of [crop] carries the size that factory unpacks. *)
Definition buildable (part : ProcessorSpec) : Prop :=
  spec_name part ∈ processor_names
  /\ (spec_name part = "crop" -> spec_args part <> []).

(** The keys the built-in processors set in [context.save_kwargs]. *)
Definition save_options : list string :=
  ["quality"; "progressive"; "transparency"; "icc_profile"].

(** The second context is the first with some of the save options set:
    same point of interest, every other key as it was, no key removed. *)
Definition sets_save_options (context context' : Context_) : Prop :=
  ppoi context' = ppoi context
  /\ (forall k, k ∉ save_options -> save_kwargs context' !! k = save_kwargs context !! k)
  /\ (forall k, is_Some (save_kwargs context !! k) -> is_Some (save_kwargs context' !! k)).

Section HandlerInvariants.
Context `{Pillow}.

(** A handler that changes the context in no other way. *)
Definition keeps_context (handler : Handler) : Prop :=
  forall image context image' context',
    handler image context = Ok (image', context') ->
    sets_save_options context context'.

(** A handler that leaves the key [icc_profile] as it is. *)
Definition keeps_icc_profile (handler : Handler) : Prop :=
  forall image context image' context',
    handler image context = Ok (image', context') ->
    save_kwargs context' !! "icc_profile" = save_kwargs context !! "icc_profile".

End HandlerInvariants.

(** The calls of a render that runs to its end, after the existence
    check, in the order of the source. *)
Definition render_calls (file : FieldFile) (target : string) (buf : bytes) : list Call :=
  [Call_file_open (file_name file); Call_Image_open; Call_build_handler;
   Call_handler; Call_image_save; Call_storage_delete target;
   Call_storage_save target buf].

(** The existence check, made unless [force] is on. *)
Definition check_calls (force : bool) (target : string) : list Call :=
  if force then [] else [Call_storage_exists target].

(** ** A reference implementation of the collaborators

    A miniature codec and an in-memory storage, used to run the
    definitions above on concrete inputs.  An encoded image is six bytes:
    a format tag, the width and the height as two big-endian bytes each,
    and the EXIF orientation (zero for none). *)

Module Reference.

(** The Pillow methods applied to an image since it was decoded. *)
Inductive Op : Type :=
  | Op_transpose (method : Z)
  | Op_convert (mode : string)
  | Op_putpalette
  | Op_copy
  | Op_thumbnail (size : Z * Z)
  | Op_crop (box : Z * Z * Z * Z)
  | Op_resize (size : Z * Z).

Record RImage : Type := {
  r_format : option string;
  r_mode : string;
  r_size : Z * Z;
  r_info : pydict;
  (** [None] when the object has no [_getexif] method *)
  r_exif : option (option (gmap Z Z));
  r_palette : option (list Z);
  r_ops : list Op;
}.

(** The image object a Pillow method returns: a new object, with no source
    format and no [_getexif]. *)
Definition derived (image : RImage) (op : Op) (mode : string) (size : Z * Z)
    (palette : option (list Z)) : RImage :=
  {| r_format := None; r_mode := mode; r_size := size; r_info := r_info image;
     r_exif := None; r_palette := palette; r_ops := r_ops image ++ [op] |}.

(** The image object after a method that changes it in place. *)
Definition mutated (image : RImage) (op : Op) (mode : string) (size : Z * Z)
    (palette : option (list Z)) : RImage :=
  {| r_format := r_format image; r_mode := mode; r_size := size;
     r_info := r_info image; r_exif := r_exif image; r_palette := palette;
     r_ops := r_ops image ++ [op] |}.

Definition byte_to_Z (b : byte) : Z := Z.of_N (Byte.to_N b).
Definition byte_of_Z (n : Z) : byte :=
  default x00 (Byte.of_N (Z.to_N (n mod 256))).

Definition grey_palette : list Z := [0; 0; 0; 255; 255; 255].

Definition r_open (data : bytes) : Result RImage :=
  match data with
  | [tag; w1; w0; h1; h0; o] =>
      let size := (256 * byte_to_Z w1 + byte_to_Z w0,
                   256 * byte_to_Z h1 + byte_to_Z h0) in
      if Byte.eqb tag "J" then
        Ok {| r_format := Some "JPEG"; r_mode := "RGB"; r_size := size;
              r_info := ∅;
              r_exif := Some (if Byte.eqb o x00 then None
                              else Some {[ 274 := byte_to_Z o ]});
              r_palette := None; r_ops := [] |}
      else if Byte.eqb tag "G" then
        Ok {| r_format := Some "GIF"; r_mode := "P"; r_size := size;
              r_info := {[ "transparency" := VInt 0 ]};
              r_exif := None; r_palette := Some grey_palette; r_ops := [] |}
      else Raise OSError
  | _ => Raise OSError
  end.

Definition r_save (image : RImage) (format : option string) (kwargs : pydict)
    : Result bytes :=
  let '(w, h) := r_size image in
  let body := [byte_of_Z (w / 256); byte_of_Z w; byte_of_Z (h / 256); byte_of_Z h; x00] in
  if decide (format = Some "JPEG") then Ok ("J"%byte :: body)
  else if decide (format = Some "GIF") then Ok ("G"%byte :: body)
  else Raise ValueError.

Definition r_transpose (image : RImage) (method : Z) : Result RImage :=
  let '(w, h) := r_size image in
  let size := if decide (method = ROTATE_90 \/ method = ROTATE_270) then (h, w) else (w, h) in
  Ok (derived image (Op_transpose method) (r_mode image) size (r_palette image)).

Definition r_convert (image : RImage) (mode : string) : Result RImage :=
  Ok (derived image (Op_convert mode) mode (r_size image) None).

Definition r_putpalette (image : RImage) (data : option (list Z)) : Result RImage :=
  match data with
  | None => Raise TypeError
  | Some _ =>
      if decide (r_mode image = "L" \/ r_mode image = "P")
      then Ok (mutated image Op_putpalette "P" (r_size image) data)
      else Raise ValueError
  end.

Definition r_copy (image : RImage) : Result RImage :=
  Ok (derived image Op_copy (r_mode image) (r_size image) (r_palette image)).

(** Shrink to fit the box, keeping the aspect ratio. *)
Definition r_thumbnail (image : RImage) (size : Z * Z) (resample : Z) : Result RImage :=
  let '(x, y) := r_size image in
  let '(x, y) := if decide (x > size.1) then (size.1, Z.max (y * size.1 / x) 1) else (x, y) in
  let '(x, y) := if decide (y > size.2) then (Z.max (x * size.2 / y) 1, size.2) else (x, y) in
  Ok (mutated image (Op_thumbnail size) (r_mode image) (x, y) (r_palette image)).

Definition r_crop (image : RImage) (box : Z * Z * Z * Z) : Result RImage :=
  let '(x0, y0, x1, y1) := box in
  if decide (x1 < x0 \/ y1 < y0) then Raise ValueError
  else Ok (derived image (Op_crop box) (r_mode image) (x1 - x0, y1 - y0)
             (r_palette image)).

Definition r_resize (image : RImage) (size : Z * Z) (resample : Z) : Result RImage :=
  if decide (size.1 <= 0 \/ size.2 <= 0) then Raise ValueError
  else Ok (derived image (Op_resize size) (r_mode image) size (r_palette image)).

#[export] Instance pillow : Pillow := {|
  Image := RImage;
  Image_open := r_open;
  Image_save := r_save;
  Image_format := r_format;
  Image_mode := r_mode;
  Image_size := r_size;
  Image_info := r_info;
  Image_has_getexif := fun image => bool_decide (is_Some (r_exif image));
  Image_getexif := fun image => Ok (default None (r_exif image));
  Image_transpose := r_transpose;
  Image_convert := r_convert;
  Image_getpalette := r_palette;
  Image_putpalette := r_putpalette;
  Image_copy := r_copy;
  Image_thumbnail := r_thumbnail;
  Image_crop := r_crop;
  Image_resize := r_resize;
|}.

(** An in-memory storage: a map from names to contents. *)
#[export] Instance memory : Storage := {|
  storage_state := gmap string bytes;
  storage_exists := fun st name => Ok (bool_decide (is_Some (st !! name)));
  storage_open := fun st name =>
    match st !! name with
    | Some content => Ok content
    | None => Raise OSError
    end;
  storage_delete := fun st name => (Ok tt, delete name st);
  storage_save := fun st name content => (Ok name, <[name := content]> st);
|}.

(** A JPEG of 1000 by 500 pixels and a GIF of 300 by 200, encoded. *)
Definition jpeg_1000x500 : bytes := ["J"%byte; x03; xe8; x01; xf4; x00].
Definition gif_300x200 : bytes := ["G"%byte; x01; x2c; x00; xc8; x00].

(** A storage holding a source and an earlier rendition. *)
Definition sample_storage : gmap string bytes :=
  {[ "source.jpg" := jpeg_1000x500; "rendition.jpg" := gif_300x200 ]}.

Definition sample_world : World :=
  {| storage := sample_storage; calls := [] |}.

(** A decoded JPEG of 1000 by 500 pixels, and a fresh context. *)
Definition sample_image : RImage :=
  {| r_format := Some "JPEG"; r_mode := "RGB"; r_size := (1000, 500);
     r_info := ∅; r_exif := Some None; r_palette := None; r_ops := [] |}.

Definition sample_context (px py : float) : Context_ :=
  {| ppoi := (px, py); save_kwargs := ∅ |}.

End Reference.

(** * Properties *)

(** ** Rounding

    Facts about the operations of [SpecFloat] at precision 53: digits and
    shifts, the rounding step, and from them the error of one division,
    product or sum of positive normal floats. *)

(** *** Digits *)

(** The number of binary digits of a positive number. *)
Lemma digits2_pos_log2 (m : positive) :
  Z.pos (digits2_pos m) = Z.log2 (Z.pos m) + 1.
Proof.
  induction m as [m IH|m IH|]; simpl; try reflexivity.
  - rewrite Pos2Z.inj_succ. destruct m; simpl in *; lia.
  - rewrite Pos2Z.inj_succ. destruct m; simpl in *; lia.
Qed.

Lemma digits2_pos_bounds (m : positive) :
  2 ^ (Z.pos (digits2_pos m) - 1) <= Z.pos m < 2 ^ Z.pos (digits2_pos m).
Proof.
  rewrite digits2_pos_log2.
  replace (Z.log2 (Z.pos m) + 1 - 1) with (Z.log2 (Z.pos m)) by lia.
  pose proof (Z.log2_spec (Z.pos m) ltac:(lia)).
  replace (Z.log2 (Z.pos m) + 1) with (Z.succ (Z.log2 (Z.pos m))) by lia. lia.
Qed.

Lemma digits2_pos_unique (m : positive) (d : Z) :
  2 ^ (d - 1) <= Z.pos m < 2 ^ d -> Z.pos (digits2_pos m) = d.
Proof.
  intros Hb. rewrite digits2_pos_log2.
  assert (Hd : 0 < d).
  { destruct (Z_lt_le_dec 0 d); [done|].
    rewrite (Z.pow_neg_r 2 (d - 1)) in Hb by lia.
    assert (2 ^ d <= 1); [|lia].
    destruct (Z.eq_dec d 0) as [->|]; [simpl; lia|].
    rewrite Z.pow_neg_r by lia. lia. }
  pose proof (Z.log2_unique (Z.pos m) (d - 1) ltac:(lia)) as Hu.
  replace (Z.succ (d - 1)) with d in Hu by lia. specialize (Hu Hb). lia.
Qed.

(** *** Shifts *)

(** One shift to the right halves the mantissa. *)
Lemma shr_1_m (r : shr_record) : 0 <= shr_m r -> shr_m (shr_1 r) = shr_m r / 2.
Proof.
  destruct r as [m r s]; simpl. intros Hm.
  destruct m as [|[p|p|]|p]; simpl; try lia; try reflexivity.
  - apply (Z.div_unique _ _ _ 1); lia.
  - apply (Z.div_unique _ _ _ 0); lia.
Qed.

(** And [p] of them divide it by 2^p. *)
Lemma iter_shr_1_m (p : positive) (r : shr_record) :
  0 <= shr_m r -> shr_m (SpecFloat.iter_pos shr_1 p r) = shr_m r / 2 ^ Z.pos p.
Proof.
  revert r; induction p as [p IH|p IH|]; intros r Hr; simpl.
  - assert (H1 : 0 <= shr_m (shr_1 r))
      by (rewrite shr_1_m by done; apply Z.div_pos; lia).
    assert (H2 : 0 <= shr_m (SpecFloat.iter_pos shr_1 p (shr_1 r)))
      by (rewrite IH by done; apply Z.div_pos; lia).
    rewrite IH, IH, shr_1_m by done.
    rewrite !Z.div_div by lia.
    assert (Hp : 2 ^ Z.pos p~1 = 2 * (2 ^ Z.pos p * 2 ^ Z.pos p)).
    { change (Z.pos p~1) with (Z.succ (2 * Z.pos p)).
      rewrite Z.pow_succ_r, Z.pow_twice_r by lia. reflexivity. }
    by rewrite Hp.
  - assert (H2 : 0 <= shr_m (SpecFloat.iter_pos shr_1 p r))
      by (rewrite IH by done; apply Z.div_pos; lia).
    rewrite IH, IH by done. rewrite Z.div_div by lia.
    assert (Hp : 2 ^ Z.pos p~0 = 2 ^ Z.pos p * 2 ^ Z.pos p).
    { change (Z.pos p~0) with (2 * Z.pos p). apply Z.pow_twice_r. }
    by rewrite Hp.
  - rewrite shr_1_m by done. reflexivity.
Qed.

Lemma shr_spec (r : shr_record) (e n : Z) :
  0 <= shr_m r ->
  shr_m (fst (shr r e n)) = shr_m r / 2 ^ Z.max n 0
  /\ snd (shr r e n) = e + Z.max n 0.
Proof.
  intros Hr. destruct n as [|p|p]; simpl.
  - rewrite Z.div_1_r. lia.
  - rewrite iter_shr_1_m by done. rewrite Z.max_l by lia. lia.
  - rewrite Z.div_1_r. lia.
Qed.

Lemma shr_record_of_loc_m m l : shr_m (shr_record_of_loc m l) = m.
Proof. by destruct l as [|[]]. Qed.

(** Rounding to nearest keeps the mantissa or adds one. *)
Lemma round_nearest_even_range m l :
  m <= round_nearest_even m l <= m + 1.
Proof. destruct l as [|[]]; simpl; try lia. destruct (Z.even m); lia. Qed.

Lemma div_pow2_bounds (m n k : Z) :
  0 <= n -> 0 <= k -> 2 ^ (n + k) <= m < 2 ^ (n + k + 1) ->
  2 ^ k <= m / 2 ^ n < 2 ^ (k + 1).
Proof.
  intros Hn Hk [Hlo Hhi].
  assert (Hp : 0 < 2 ^ n) by (apply Z.pow_pos_nonneg; lia).
  rewrite Z.pow_add_r in Hlo by lia.
  replace (n + k + 1) with (n + (k + 1)) in Hhi by lia.
  rewrite Z.pow_add_r in Hhi by lia.
  split.
  - apply Z.div_le_lower_bound; lia.
  - apply Z.div_lt_upper_bound; lia.
Qed.

Lemma Zdigits2_pos (m : positive) : Zdigits2 (Z.pos m) = Z.pos (digits2_pos m).
Proof. reflexivity. Qed.

Lemma fexp_normal (e : Z) : -1021 <= e -> fexp prec emax e = e - 53.
Proof. unfold fexp, SpecFloat.emin, prec, emax. lia. Qed.

(** *** The rounding step *)

(** A mantissa of 53 digits given as exact is left as it is. *)
Lemma binary_round_aux_exact (mx : positive) (ex : Z) :
  Z.pos (digits2_pos mx) = 53 -> -1074 <= ex <= 971 ->
  binary_round_aux prec emax false (Z.pos mx) ex loc_Exact = S754_finite false mx ex.
Proof.
  intros Hd He. unfold binary_round_aux, shr_fexp. rewrite Zdigits2_pos, Hd.
  rewrite fexp_normal by lia.
  replace (53 + ex - 53 - ex) with 0 by lia. simpl.
  rewrite Hd. rewrite fexp_normal by lia.
  replace (53 + ex - 53 - ex) with 0 by lia. simpl.
  replace (Z.leb ex (emax - prec)) with true
    by (symmetry; apply Z.leb_le; unfold prec, emax; lia).
  reflexivity.
Qed.

(** A mantissa of [d >= 53] digits, in the normal range: the result is a
    normal float whose value is the mantissa cut to 53 digits, or that plus
    one unit in the last place. *)
Lemma binary_round_aux_normal (mx : positive) (ex : Z) (lx : location) :
  let d := Z.pos (digits2_pos mx) in
  53 <= d -> -1074 <= ex + d - 53 -> ex + d - 53 < 971 ->
  exists m' e',
    binary_round_aux prec emax false (Z.pos mx) ex lx = S754_finite false m' e'
    /\ Z.pos (digits2_pos m') = 53
    /\ ex + d - 53 <= e' <= ex + d - 52
    /\ Z.pos mx / 2 ^ (d - 53) <= Z.pos m' * 2 ^ (e' - (ex + d - 53))
         <= Z.pos mx / 2 ^ (d - 53) + 1.
Proof.
  intros d Hd Hlo Hhi.
  pose proof (digits2_pos_bounds mx) as Hmx. fold d in Hmx.
  unfold binary_round_aux, shr_fexp. rewrite Zdigits2_pos. fold d.
  rewrite fexp_normal by lia.
  set (n := d + ex - 53 - ex).
  assert (Hn : n = d - 53) by (unfold n; lia).
  destruct (shr_spec (shr_record_of_loc (Z.pos mx) lx) ex n) as [Hm1 He1].
  { rewrite shr_record_of_loc_m. lia. }
  destruct (shr (shr_record_of_loc (Z.pos mx) lx) ex n) as [mrs1 e1].
  simpl in Hm1, He1. rewrite shr_record_of_loc_m in Hm1.
  rewrite Z.max_l in Hm1, He1 by lia.
  set (m1 := shr_m mrs1) in *.
  assert (Hm1b : 2 ^ 52 <= m1 < 2 ^ 53).
  { rewrite Hm1. apply (div_pow2_bounds (Z.pos mx) n 52); [lia|lia|].
    replace (n + 52) with (d - 1) by lia. replace (d - 1 + 1) with d by lia. done. }
  pose proof (round_nearest_even_range m1 (loc_of_shr_record mrs1)) as Hm2.
  set (m2 := round_nearest_even m1 (loc_of_shr_record mrs1)) in *.
  assert (Hm2pos : exists p2, m2 = Z.pos p2).
  { destruct m2 as [|p2|p2]; [lia|eauto|lia]. }
  destruct Hm2pos as [p2 Hp2]. rewrite Hp2. rewrite Zdigits2_pos.
  destruct (Z.eq_dec m2 (2 ^ 53)) as [Hcarry|Hnocarry].
  - (* the rounding carried into the next binade *)
    assert (Hd2 : Z.pos (digits2_pos p2) = 54).
    { apply digits2_pos_unique. rewrite <- Hp2, Hcarry. simpl. lia. }
    rewrite Hd2. rewrite fexp_normal by lia.
    replace (54 + e1 - 53 - e1) with 1 by lia.
    assert (Hp2' : p2 = (2 ^ 53)%positive)
      by (apply Pos2Z.inj; rewrite <- Hp2, Hcarry; reflexivity).
    rewrite Hp2'. simpl.
    replace (Z.leb (e1 + 1) (emax - prec)) with true
      by (symmetry; apply Z.leb_le; unfold prec, emax; lia).
    eexists _, _. split; [reflexivity|]. split; [reflexivity|].
    split; [lia|].
    replace (e1 + 1 - (ex + d - 53)) with 1 by lia.
    rewrite <- Hn, <- Hm1.
    change (Z.pos 4503599627370496 * 2 ^ 1) with (2 ^ 53). lia.
  - assert (Hd2 : Z.pos (digits2_pos p2) = 53).
    { apply digits2_pos_unique. rewrite <- Hp2. simpl. lia. }
    rewrite Hd2. rewrite fexp_normal by lia.
    replace (53 + e1 - 53 - e1) with 0 by lia. simpl.
    replace (Z.leb e1 (emax - prec)) with true
      by (symmetry; apply Z.leb_le; unfold prec, emax; lia).
    exists p2, e1. split; [reflexivity|]. split; [done|].
    split; [lia|].
    replace (e1 - (ex + d - 53)) with 0 by lia. rewrite Z.pow_0_r, Z.mul_1_r.
    rewrite <- Hn, <- Hm1, <- Hp2. lia.
Qed.

Lemma digits2_pos_le (p : positive) (k : Z) :
  Z.pos p < 2 ^ k -> Z.pos (digits2_pos p) <= k.
Proof.
  intros Hp. pose proof (digits2_pos_bounds p) as [Hlo _].
  assert (Hk : 0 <= k).
  { destruct (Z_lt_le_dec k 0); [|done]. rewrite Z.pow_neg_r in Hp by done. lia. }
  assert (Hlt : 2 ^ (Z.pos (digits2_pos p) - 1) < 2 ^ k) by lia.
  apply Z.pow_lt_mono_r_iff in Hlt; lia.
Qed.

(** Away from the overflow threshold the result is never an infinity or
    a NaN, whatever the digits of the mantissa. *)
Lemma binary_round_aux_finite (s : bool) (mx : positive) (ex : Z) (lx : location) :
  ex <= 971 -> Z.pos (digits2_pos mx) + ex <= 1023 ->
  is_finite (binary_round_aux prec emax s (Z.pos mx) ex lx) = true.
Proof.
  intros Hex Hd.
  pose proof (digits2_pos_bounds mx) as [_ Hmx].
  set (d := Z.pos (digits2_pos mx)) in *.
  unfold binary_round_aux, shr_fexp. rewrite Zdigits2_pos. fold d.
  set (n1 := fexp prec emax (d + ex) - ex).
  destruct (shr_spec (shr_record_of_loc (Z.pos mx) lx) ex n1) as [Hm1 He1].
  { rewrite shr_record_of_loc_m. lia. }
  destruct (shr (shr_record_of_loc (Z.pos mx) lx) ex n1) as [mrs1 e1].
  simpl in Hm1, He1. rewrite shr_record_of_loc_m in Hm1.
  set (k := Z.max n1 0) in *.
  assert (Hk : 0 <= k) by lia.
  assert (He1b : e1 <= 971).
  { unfold k, n1, fexp, SpecFloat.emin, prec, emax in *. lia. }
  assert (Hm1b : 0 <= shr_m mrs1 < 2 ^ (1023 - e1)).
  { rewrite Hm1. split; [apply Z.div_pos; [lia|apply Z.pow_pos_nonneg; lia]|].
    apply Z.div_lt_upper_bound; [apply Z.pow_pos_nonneg; lia|].
    rewrite <- Z.pow_add_r by lia.
    replace (k + (1023 - e1)) with (1023 - ex) by lia.
    eapply Z.lt_le_trans; [exact Hmx|]. apply Z.pow_le_mono_r; lia. }
  pose proof (round_nearest_even_range (shr_m mrs1) (loc_of_shr_record mrs1)) as Hm2.
  set (m2 := round_nearest_even (shr_m mrs1) (loc_of_shr_record mrs1)) in *.
  set (n2 := fexp prec emax (Zdigits2 m2 + e1) - e1).
  destruct (shr_spec (shr_record_of_loc m2 loc_Exact) e1 n2) as [Hm3 He3].
  { simpl. lia. }
  destruct (shr (shr_record_of_loc m2 loc_Exact) e1 n2) as [mrs3 e3].
  simpl in Hm3, He3.
  destruct (shr_m mrs3) as [|m3|m3] eqn:Em3; [reflexivity| |].
  - assert (He3b : e3 <= 971).
    { destruct m2 as [|p2|p2]; [|  |lia].
      - rewrite Z.div_0_l in Hm3; [lia|]. apply Z.pow_nonzero; lia.
      - assert (Hp2 : Z.pos (digits2_pos p2) <= 1024 - e1).
        { apply digits2_pos_le.
          replace (1024 - e1) with (Z.succ (1023 - e1)) by lia.
          rewrite Z.pow_succ_r by lia. lia. }
        unfold n2, fexp, SpecFloat.emin, prec, emax in *.
        rewrite Zdigits2_pos in He3. lia. }
    replace (Z.leb e3 (emax - prec)) with true
      by (symmetry; apply Z.leb_le; unfold prec, emax; lia).
    reflexivity.
  - exfalso.
    assert (0 <= m2 / 2 ^ Z.max n2 0); [|lia].
    apply Z.div_pos; [lia|apply Z.pow_pos_nonneg; lia].
Qed.

Lemma pos_iter_xO (p k : positive) :
  Z.pos (Pos.iter xO p k) = Z.pos p * 2 ^ Z.pos k.
Proof.
  induction k as [|k IH] using Pos.peano_ind.
  - simpl. lia.
  - rewrite Pos.iter_succ, Pos2Z.inj_succ, Z.pow_succ_r by lia.
    change (Z.pos (Pos.iter xO p k)~0) with (2 * Z.pos (Pos.iter xO p k)). lia.
Qed.

(** *** Conversion from int *)

(** [float(n)] is exact for a positive int below 2^53. *)
Lemma py_float_exact (n : Z) :
  0 < n < 2 ^ 53 ->
  exists m e,
    py_float n = Ok (S754_finite false m e)
    /\ Z.pos (digits2_pos m) = 53
    /\ e = Z.log2 n - 52
    /\ Z.pos m = n * 2 ^ (- e).
Proof.
  intros [Hpos Hlt]. destruct n as [|p|p]; try lia.
  pose proof (digits2_pos_bounds p) as Hb.
  pose proof (digits2_pos_le p 53 Hlt) as Hd53.
  rewrite <- (Z.add_simpl_r (Z.log2 (Z.pos p)) 1), <- digits2_pos_log2.
  set (d := Z.pos (digits2_pos p)) in *.
  assert (Hd1 : 1 <= d) by (unfold d; lia).
  unfold py_float, binary_normalize, binary_round.
  rewrite Z.add_0_r. fold d. rewrite fexp_normal by lia.
  unfold shl_align. rewrite Z.sub_0_r.
  destruct (d - 53) as [|k|k] eqn:Ek; try lia.
  - exists p, 0. rewrite binary_round_aux_exact by (fold d; lia).
    repeat split; [fold d; lia|lia|simpl; lia].
  - set (m := Pos.iter xO p k).
    assert (Hm : Z.pos m = Z.pos p * 2 ^ Z.pos k) by apply pos_iter_xO.
    assert (Hdm : Z.pos (digits2_pos m) = 53).
    { apply digits2_pos_unique. rewrite Hm.
      assert (Hk : Z.pos k = 53 - d) by lia. rewrite Hk.
      replace 52 with ((d - 1) + (53 - d)) by lia.
      replace (2 ^ 53) with (2 ^ (d + (53 - d))) by (f_equal; lia).
      rewrite !Z.pow_add_r by lia.
      assert (0 < 2 ^ (53 - d)) by (apply Z.pow_pos_nonneg; lia).
      change (53 - 1) with 52.
      replace 52 with ((d - 1) + (53 - d)) at 1 by lia.
      rewrite Z.pow_add_r by lia. nia. }
    exists m, (Z.neg k). rewrite binary_round_aux_exact by lia.
    repeat split; [done|lia|]. rewrite Hm. reflexivity.
Qed.

(** *** Real values *)

Lemma pow2_pos (e : Z) : (0 < pow2 e)%R.
Proof. apply powerRZ_lt. lra. Qed.

Lemma pow2_add (a b : Z) : (pow2 (a + b) = pow2 a * pow2 b)%R.
Proof. apply powerRZ_add. lra. Qed.

Lemma pow2_IZR (k : Z) : 0 <= k -> pow2 k = IZR (2 ^ k).
Proof.
  intros Hk. unfold pow2. rewrite <- (Z2Nat.id k Hk).
  rewrite <- pow_powerRZ. rewrite <- pow_IZR. reflexivity.
Qed.

Lemma pow2_0 : pow2 0 = 1%R.
Proof. reflexivity. Qed.

(** Two numbers in the same unit interval above 2^52 are within a
    relative 2^-52 of each other. *)
Lemma unit_interval_rel (q v : Z) (t : R) :
  2 ^ 52 <= q -> q <= v <= q + 1 ->
  (IZR q <= t < IZR q + 1)%R ->
  (t * (1 - eps) <= IZR v <= t * (1 + eps))%R.
Proof.
  intros Hq [Hv1 Hv2] [Ht1 Ht2].
  assert (Hq' : (IZR (2 ^ 52) <= IZR q)%R) by (apply IZR_le; done).
  assert (H52 : (0 < IZR (2 ^ 52))%R) by (apply IZR_lt; reflexivity).
  assert (Hte : (1 <= t * eps)%R).
  { unfold eps. apply (Rmult_le_reg_r (IZR (2 ^ 52))); [done|].
    rewrite Rmult_assoc, Rinv_l by lra. lra. }
  apply IZR_le in Hv1, Hv2. rewrite plus_IZR in Hv2. lra.
Qed.

(** The rounding step on a mantissa that stands for the real [X], with
    [mx <= X < mx + 1]: the result is within a relative 2^-52 of
    [X * 2^ex]. *)
Lemma binary_round_aux_rel (mx : positive) (ex : Z) (lx : location) (X : R) :
  let d := Z.pos (digits2_pos mx) in
  53 <= d -> -1074 <= ex + d - 53 -> ex + d - 53 < 971 ->
  (IZR (Z.pos mx) <= X < IZR (Z.pos mx) + 1)%R ->
  exists m' e',
    binary_round_aux prec emax false (Z.pos mx) ex lx = S754_finite false m' e'
    /\ Z.pos (digits2_pos m') = 53
    /\ ex + d - 53 <= e' <= ex + d - 52
    /\ (X * pow2 ex * (1 - eps) <= F2R (S754_finite false m' e')
        <= X * pow2 ex * (1 + eps))%R.
Proof.
  intros d Hd Hlo Hhi [HX1 HX2].
  destruct (binary_round_aux_normal mx ex lx Hd Hlo Hhi)
    as (m' & e' & Heq & Hd' & He' & Hv).
  fold d in He', Hv.
  exists m', e'. split; [done|]. split; [done|]. split; [done|].
  set (n := d - 53) in *. set (q := Z.pos mx / 2 ^ n) in *.
  set (k := e' - (ex + n)) in *.
  assert (Hk : 0 <= k) by (unfold k, n; lia).
  assert (Hn : 0 <= n) by (unfold n; lia).
  pose proof (digits2_pos_bounds mx) as Hmx. fold d in Hmx.
  assert (Hq : 2 ^ 52 <= q < 2 ^ 53).
  { apply (div_pow2_bounds (Z.pos mx) n 52); [done|lia|].
    replace (n + 52) with (d - 1) by (unfold n; lia).
    replace (d - 1 + 1) with d by lia. done. }
  assert (HP : 0 < 2 ^ n) by (apply Z.pow_pos_nonneg; lia).
  assert (Hdiv1 : q * 2 ^ n <= Z.pos mx).
  { unfold q. rewrite Z.mul_comm. apply Z.mul_div_le. done. }
  assert (Hdiv2 : Z.pos mx + 1 <= (q + 1) * 2 ^ n).
  { unfold q. pose proof (Z.mul_succ_div_gt (Z.pos mx) (2 ^ n) HP). lia. }
  apply IZR_le in Hdiv1, Hdiv2.
  rewrite mult_IZR in Hdiv1. rewrite mult_IZR, !plus_IZR in Hdiv2.
  rewrite <- (pow2_IZR n Hn) in Hdiv1, Hdiv2.
  pose proof (pow2_pos n) as HPn.
  set (t := (X * / pow2 n)%R).
  assert (Ht : (IZR q <= t < IZR q + 1)%R).
  { unfold t. split.
    - apply (Rmult_le_reg_r (pow2 n)); [done|].
      rewrite Rmult_assoc, Rinv_l by lra. lra.
    - apply (Rmult_lt_reg_r (pow2 n)); [done|].
      rewrite Rmult_assoc, Rinv_l by lra. lra. }
  replace (e' - (ex + d - 53)) with k in Hv by (unfold k, n; lia).
  pose proof (unit_interval_rel q (Z.pos m' * 2 ^ k) t (proj1 Hq) Hv Ht) as Hrel.
  rewrite mult_IZR, <- (pow2_IZR k Hk) in Hrel.
  assert (HE : pow2 e' = (pow2 k * pow2 (ex + n))%R).
  { rewrite <- pow2_add. f_equal. unfold k. lia. }
  assert (HXt : (X * pow2 ex = t * pow2 (ex + n))%R).
  { unfold t. rewrite (Z.add_comm ex n), pow2_add. field. lra. }
  unfold F2R. rewrite HE, HXt.
  pose proof (pow2_pos (ex + n)) as HPE.
  split.
  - replace (t * pow2 (ex + n) * (1 - eps))%R
      with (t * (1 - eps) * pow2 (ex + n))%R by ring.
    replace (IZR (Z.pos m') * (pow2 k * pow2 (ex + n)))%R
      with (IZR (Z.pos m') * pow2 k * pow2 (ex + n))%R by ring.
    apply Rmult_le_compat_r; lra.
  - replace (t * pow2 (ex + n) * (1 + eps))%R
      with (t * (1 + eps) * pow2 (ex + n))%R by ring.
    replace (IZR (Z.pos m') * (pow2 k * pow2 (ex + n)))%R
      with (IZR (Z.pos m') * pow2 k * pow2 (ex + n))%R by ring.
    apply Rmult_le_compat_r; lra.
Qed.

Lemma F2R_finite (m : positive) (e : Z) :
  F2R (S754_finite false m e) = (IZR (Z.pos m) * pow2 e)%R.
Proof. reflexivity. Qed.

Lemma normal_pos x lo hi : normal x lo hi -> (0 < F2R x)%R.
Proof.
  intros (m & e & -> & _ & _). simpl.
  apply Rmult_lt_0_compat; [apply IZR_lt; lia|apply pow2_pos].
Qed.

Lemma mantissa_bounds (m : positive) :
  Z.pos (digits2_pos m) = 53 -> 2 ^ 52 <= Z.pos m < 2 ^ 53.
Proof. intros Hd. pose proof (digits2_pos_bounds m) as Hb. rewrite Hd in Hb. exact Hb. Qed.

(** *** The operations on positive normal floats *)

Lemma py_float_normal (n : Z) :
  0 < n < 2 ^ 48 ->
  exists x, py_float n = Ok x /\ normal x (-52) (-5) /\ F2R x = IZR n.
Proof.
  intros Hn.
  destruct (py_float_exact n) as (m & e & Heq & Hd & He & Hm); [lia|].
  assert (Hlog : 0 <= Z.log2 n < 48).
  { split; [apply Z.log2_nonneg|]. apply Z.log2_lt_pow2; lia. }
  exists (S754_finite false m e). split; [done|]. split.
  - exists m, e. repeat split; [done|lia|lia].
  - simpl. rewrite Hm, mult_IZR, <- pow2_IZR by lia.
    rewrite Rmult_assoc, <- pow2_add. replace (- e + e) with 0 by lia.
    rewrite pow2_0. ring.
Qed.

Lemma SFmul_normal (a b : float) (la ha lb hb : Z) :
  normal a la ha -> normal b lb hb ->
  -1074 <= la + lb + 52 -> ha + hb + 53 < 971 ->
  normal (py_mul a b) (la + lb + 52) (ha + hb + 54)
  /\ (F2R a * F2R b * (1 - eps) <= F2R (py_mul a b) <= F2R a * F2R b * (1 + eps))%R.
Proof.
  intros (ma & ea & -> & Hda & Hea) (mb & eb & -> & Hdb & Heb) Hlo Hhi.
  pose proof (mantissa_bounds ma Hda) as Hma.
  pose proof (mantissa_bounds mb Hdb) as Hmb.
  unfold py_mul, SFmul. simpl xorb.
  assert (Hprod : 2 ^ 104 <= Z.pos (ma * mb) < 2 ^ 106).
  { rewrite Pos2Z.inj_mul. change (2 ^ 104) with (2 ^ 52 * 2 ^ 52).
    change (2 ^ 106) with (2 ^ 53 * 2 ^ 53). nia. }
  assert (Hd : 105 <= Z.pos (digits2_pos (ma * mb)) <= 106).
  { destruct (Z_lt_le_dec (Z.pos (ma * mb)) (2 ^ 105)).
    - rewrite (digits2_pos_unique (ma * mb) 105); [lia|]. simpl Z.sub. lia.
    - rewrite (digits2_pos_unique (ma * mb) 106); [lia|]. simpl Z.sub. lia. }
  destruct (binary_round_aux_rel (ma * mb) (ea + eb) loc_Exact (IZR (Z.pos (ma * mb))))
    as (m' & e' & Heq & Hd' & He' & Hv); [lia|lia|lia|lra|].
  rewrite Heq. split.
  - exists m', e'. repeat split; [done|lia|lia].
  - rewrite (F2R_finite ma ea), (F2R_finite mb eb).
    rewrite Pos2Z.inj_mul, mult_IZR, pow2_add in Hv.
    replace (IZR (Z.pos ma) * pow2 ea * (IZR (Z.pos mb) * pow2 eb))%R
      with (IZR (Z.pos ma) * IZR (Z.pos mb) * (pow2 ea * pow2 eb))%R by ring.
    exact Hv.
Qed.

Lemma pow2_opp (a : Z) : pow2 (- a) = (/ pow2 a)%R.
Proof.
  pose proof (pow2_pos a) as Ha.
  apply (Rmult_eq_reg_r (pow2 a)); [|lra].
  rewrite <- pow2_add, Rinv_l by lra.
  replace (- a + a) with 0 by lia. apply pow2_0.
Qed.

Lemma SFdiv_normal (a b : float) (la ha lb hb : Z) :
  normal a la ha -> normal b lb hb ->
  -1021 <= la - hb -> ha - lb - 52 < 971 ->
  exists r,
    py_truediv a b = Ok r
    /\ normal r (la - hb - 53) (ha - lb - 51)
    /\ (F2R a / F2R b * (1 - eps) <= F2R r <= F2R a / F2R b * (1 + eps))%R.
Proof.
  intros (ma & ea & -> & Hda & Hea) (mb & eb & -> & Hdb & Heb) Hlo Hhi.
  pose proof (mantissa_bounds ma Hda) as Hma.
  pose proof (mantissa_bounds mb Hdb) as Hmb.
  unfold py_truediv, SFdiv, SFdiv_core_binary. simpl xorb.
  rewrite !Zdigits2_pos, Hda, Hdb.
  rewrite fexp_normal by lia.
  rewrite Z.min_l by lia.
  replace (ea - eb - (53 + ea - (53 + eb) - 53)) with 53 by lia.
  cbv beta iota.
  rewrite Z.shiftl_mul_pow2 by lia.
  set (M := Z.pos ma * 2 ^ 53).
  set (ez := 53 + ea - (53 + eb) - 53).
  assert (Hez : ez = ea - eb - 53) by (unfold ez; lia).
  destruct (Z.div_eucl M (Z.pos mb)) as [q r] eqn:Ediv.
  assert (Hq : q = M / Z.pos mb) by (unfold Z.div; rewrite Ediv; done).
  assert (HM : 2 ^ 105 <= M < 2 ^ 106).
  { unfold M. change (2 ^ 105) with (2 ^ 52 * 2 ^ 53).
    change (2 ^ 106) with (2 ^ 53 * 2 ^ 53). lia. }
  assert (Hqb : 2 ^ 52 <= q < 2 ^ 54).
  { rewrite Hq. split.
    - apply Z.div_le_lower_bound; [lia|].
      change (2 ^ 105) with (2 ^ 53 * 2 ^ 52) in HM. nia.
    - apply Z.div_lt_upper_bound; [lia|].
      change (2 ^ 106) with (2 ^ 52 * 2 ^ 54) in HM. nia. }
  destruct q as [|pq|pq]; [lia| |lia].
  assert (Hd : 53 <= Z.pos (digits2_pos pq) <= 54).
  { destruct (Z_lt_le_dec (Z.pos pq) (2 ^ 53)).
    - rewrite (digits2_pos_unique pq 53); [lia|]. simpl Z.sub. lia.
    - rewrite (digits2_pos_unique pq 54); [lia|]. simpl Z.sub. lia. }
  assert (Hdiv1 : Z.pos pq * Z.pos mb <= M).
  { rewrite Hq, Z.mul_comm. apply Z.mul_div_le. lia. }
  assert (Hdiv2 : M + 1 <= (Z.pos pq + 1) * Z.pos mb).
  { rewrite Hq. pose proof (Z.mul_succ_div_gt M (Z.pos mb) ltac:(lia)). lia. }
  apply IZR_le in Hdiv1, Hdiv2.
  rewrite mult_IZR in Hdiv1. rewrite mult_IZR, !plus_IZR in Hdiv2.
  assert (Hmbpos : (0 < IZR (Z.pos mb))%R) by (apply IZR_lt; lia).
  set (X := (IZR M / IZR (Z.pos mb))%R).
  assert (HX : (IZR (Z.pos pq) <= X < IZR (Z.pos pq) + 1)%R).
  { unfold X, Rdiv. split.
    - apply (Rmult_le_reg_r (IZR (Z.pos mb))); [done|].
      rewrite Rmult_assoc, Rinv_l by lra. lra.
    - apply (Rmult_lt_reg_r (IZR (Z.pos mb))); [done|].
      rewrite Rmult_assoc, Rinv_l by lra. lra. }
  destruct (binary_round_aux_rel pq ez (new_location (Z.pos mb) r) X)
    as (m' & e' & Heq & Hd' & He' & Hv); [lia|lia|lia|done|].
  rewrite Heq. eexists. split; [reflexivity|]. split.
  - exists m', e'. repeat split; [done|lia|lia].
  - rewrite (F2R_finite ma ea), (F2R_finite mb eb).
    assert (Hexact : (X * pow2 ez = IZR (Z.pos ma) * pow2 ea / (IZR (Z.pos mb) * pow2 eb))%R).
    { unfold X, M. rewrite Hez, mult_IZR, <- (pow2_IZR 53) by lia.
      replace (ea - eb - 53) with (ea + (- eb + Z.opp 53)) by lia.
      rewrite !pow2_add, !pow2_opp.
      pose proof (pow2_pos eb). pose proof (pow2_pos 53).
      generalize dependent (IZR (Z.pos mb)). generalize (IZR (Z.pos ma)).
      generalize dependent (pow2 eb). generalize (pow2 ea). generalize dependent (pow2 53).
      intros. field. lra. }
    rewrite <- Hexact. exact Hv.
Qed.

Lemma digits2_pos_ge (p : positive) (k : Z) :
  0 <= k -> 2 ^ k <= Z.pos p -> k + 1 <= Z.pos (digits2_pos p).
Proof.
  intros Hk Hp. pose proof (digits2_pos_bounds p) as [_ Hhi].
  assert (Hlt : 2 ^ k < 2 ^ Z.pos (digits2_pos p)) by lia.
  apply Z.pow_lt_mono_r_iff in Hlt; lia.
Qed.

Lemma shl_align_spec (m : positive) (e ez : Z) :
  ez <= e ->
  Z.pos (fst (shl_align m e ez)) = Z.pos m * 2 ^ (e - ez).
Proof.
  intros He. unfold shl_align.
  destruct (ez - e) as [|k|k] eqn:Ek; simpl; try lia.
  - replace (e - ez) with 0 by lia. lia.
  - rewrite pos_iter_xO. f_equal. f_equal. lia.
Qed.

Lemma pow2_m1 : pow2 (-1) = (/ 2)%R.
Proof. unfold pow2. simpl. f_equal. lra. Qed.

Lemma F2R_half : F2R half = (/ 2)%R.
Proof.
  unfold half. rewrite F2R_finite.
  change (Z.pos 4503599627370496) with (2 ^ 52). rewrite <- (pow2_IZR 52) by lia.
  rewrite <- pow2_add. exact pow2_m1.
Qed.

Lemma add_half_exact (ma : positive) (ea ez : Z) :
  ez <= ea -> ez <= -53 ->
  (IZR (Z.pos ma * 2 ^ (ea - ez) + 2 ^ 52 * 2 ^ (-53 - ez)) * pow2 ez
   = F2R (S754_finite false ma ea) + / 2)%R.
Proof.
  intros H1 H2. rewrite plus_IZR, !mult_IZR, F2R_finite.
  rewrite <- !pow2_IZR by lia.
  assert (E1 : pow2 ea = (pow2 (ea - ez) * pow2 ez)%R).
  { rewrite <- pow2_add. f_equal. lia. }
  assert (E2 : (/ 2 = pow2 52 * (pow2 (-53 - ez) * pow2 ez))%R).
  { rewrite <- !pow2_add. rewrite <- pow2_m1. f_equal. lia. }
  rewrite E1, E2. ring.
Qed.

Lemma SFadd_half_normal (a : float) (la ha : Z) :
  normal a la ha -> -1000 <= la -> ha <= 900 ->
  normal (py_add a half) (Z.min la (-53)) (Z.max ha (-53) + 2)
  /\ ((F2R a + / 2) * (1 - eps) <= F2R (py_add a half) <= (F2R a + / 2) * (1 + eps))%R.
Proof.
  intros (ma & ea & -> & Hda & Hea) Hlo Hhi.
  pose proof (mantissa_bounds ma Hda) as Hma.
  unfold py_add, half, SFadd. simpl cond_Zopp.
  set (ez := Z.min ea (-53)).
  rewrite (shl_align_spec ma ea ez) by (unfold ez; lia).
  rewrite (shl_align_spec 4503599627370496 (-53) ez) by (unfold ez; lia).
  change (Z.pos 4503599627370496) with (2 ^ 52).
  set (S := Z.pos ma * 2 ^ (ea - ez) + 2 ^ 52 * 2 ^ (-53 - ez)).
  set (M := Z.max ea (-53)).
  assert (Hp1 : 0 < 2 ^ (ea - ez)) by (apply Z.pow_pos_nonneg; unfold ez; lia).
  assert (Hp2 : 0 < 2 ^ (-53 - ez)) by (apply Z.pow_pos_nonneg; unfold ez; lia).
  assert (HSlo : 2 ^ 52 <= S) by (unfold S; nia).
  assert (HShi : S < 2 ^ (54 + M - ez)).
  { replace (54 + M - ez) with (Z.succ (53 + M - ez)) by lia.
    rewrite Z.pow_succ_r by (unfold M, ez; lia).
    assert (H1 : Z.pos ma * 2 ^ (ea - ez) < 2 ^ (53 + M - ez)).
    { eapply Z.lt_le_trans with (2 ^ 53 * 2 ^ (ea - ez)); [nia|].
      rewrite <- Z.pow_add_r by (unfold ez; lia).
      apply Z.pow_le_mono_r; unfold M, ez; lia. }
    assert (H2 : 2 ^ 52 * 2 ^ (-53 - ez) <= 2 ^ (53 + M - ez)).
    { rewrite <- Z.pow_add_r by (unfold ez; lia).
      apply Z.pow_le_mono_r; unfold M, ez; lia. }
    unfold S. lia. }
  destruct S as [|s|s] eqn:ES; try lia.
  unfold binary_normalize, binary_round.
  pose proof (digits2_pos_ge s 52 ltac:(lia) HSlo) as Hds.
  pose proof (digits2_pos_le s _ HShi) as Hds'.
  rewrite fexp_normal by (unfold ez; lia).
  unfold shl_align.
  destruct (Z.pos (digits2_pos s) + ez - 53 - ez) as [|k|k] eqn:Ek; try lia.
  - destruct (binary_round_aux_rel s ez loc_Exact (IZR (Z.pos s)))
      as (m' & e' & Heq & Hd' & He' & Hv); [lia|unfold ez; lia|unfold M in *; lia|lra|].
    rewrite Heq. split.
    + exists m', e'. repeat split; [done|unfold ez in *; lia|unfold M, ez in *; lia].
    + rewrite <- (add_half_exact ma ea ez) by (unfold ez; lia).
      fold S. rewrite ES. exact Hv.
  - destruct (binary_round_aux_rel s ez loc_Exact (IZR (Z.pos s)))
      as (m' & e' & Heq & Hd' & He' & Hv); [lia|unfold ez; lia|unfold M in *; lia|lra|].
    rewrite Heq. split.
    + exists m', e'. repeat split; [done|unfold ez in *; lia|unfold M, ez in *; lia].
    + rewrite <- (add_half_exact ma ea ez) by (unfold ez; lia).
      fold S. rewrite ES. exact Hv.
Qed.

Lemma pow2_le (a b : Z) : a <= b -> (pow2 a <= pow2 b)%R.
Proof.
  intros Hab. replace b with (a + (b - a)) by lia. rewrite pow2_add.
  pose proof (pow2_pos a) as Ha.
  assert (H1 : (1 <= pow2 (b - a))%R).
  { rewrite pow2_IZR by lia. apply IZR_le.
    pose proof (Z.pow_pos_nonneg 2 (b - a) ltac:(lia) ltac:(lia)). lia. }
  rewrite <- (Rmult_1_r (pow2 a)) at 1. apply Rmult_le_compat_l; lra.
Qed.

(** The order of positive normal floats is the order of their values. *)
Lemma normal_exponent_lt (ma mb : positive) (ea eb : Z) :
  Z.pos (digits2_pos ma) = 53 -> Z.pos (digits2_pos mb) = 53 -> ea < eb ->
  (F2R (S754_finite false ma ea) < F2R (S754_finite false mb eb))%R.
Proof.
  intros Hda Hdb Hlt. rewrite !F2R_finite.
  pose proof (mantissa_bounds ma Hda) as [_ Hma].
  pose proof (mantissa_bounds mb Hdb) as [Hmb _].
  apply IZR_lt in Hma. apply IZR_le in Hmb.
  rewrite <- pow2_IZR in Hma, Hmb by lia.
  pose proof (pow2_pos ea) as Hpa. pose proof (pow2_pos eb) as Hpb.
  apply Rlt_le_trans with (pow2 53 * pow2 ea)%R.
  - apply Rmult_lt_compat_r; done.
  - apply Rle_trans with (pow2 52 * pow2 eb)%R.
    + rewrite <- !pow2_add. apply pow2_le. lia.
    + apply Rmult_le_compat_r; lra.
Qed.

Lemma py_ge_normal (a b : float) (la ha lb hb : Z) :
  normal a la ha -> normal b lb hb ->
  if py_ge a b then (F2R b <= F2R a)%R else (F2R a < F2R b)%R.
Proof.
  intros (ma & ea & -> & Hda & Hea) (mb & eb & -> & Hdb & Heb).
  unfold py_ge, SFleb, SFcompare.
  destruct (Z.compare_spec eb ea) as [->|Hlt|Hgt].
  - change (Pos.compare_cont Eq mb ma) with (Pos.compare mb ma).
    rewrite !F2R_finite. pose proof (pow2_pos ea).
    destruct (Pos.compare_spec mb ma) as [->|Hm|Hm].
    + lra.
    + apply Rmult_le_compat_r; [lra|]. apply IZR_le. lia.
    + apply Rmult_lt_compat_r; [lra|]. apply IZR_lt. lia.
  - left. by apply normal_exponent_lt.
  - by apply normal_exponent_lt.
Qed.

(** [int] of a positive normal float is an int between 0 and its value. *)
Lemma py_int_normal (y : float) (lo hi : Z) :
  normal y lo hi ->
  exists z, py_int y = Ok z /\ 0 <= z /\ (IZR z <= F2R y)%R.
Proof.
  intros (m & e & -> & Hd & He). rewrite F2R_finite. unfold py_int.
  destruct e as [|p|p].
  - eexists; split; [reflexivity|]. split; [lia|].
    rewrite mult_IZR, pow2_0. simpl. lra.
  - eexists; split; [reflexivity|]. split; [lia|].
    rewrite mult_IZR, <- pow2_IZR by lia. lra.
  - eexists; split; [reflexivity|].
    assert (HP : 0 < 2 ^ Z.pos p) by (apply Z.pow_pos_nonneg; lia).
    split; [apply Z.div_pos; lia|].
    pose proof (Z.mul_div_le (Z.pos m) (2 ^ Z.pos p) HP) as Hdiv.
    apply IZR_le in Hdiv. rewrite mult_IZR, <- pow2_IZR in Hdiv by lia.
    change (Z.neg p) with (- Z.pos p). rewrite pow2_opp.
    pose proof (pow2_pos (Z.pos p)) as Hpp.
    apply (Rmult_le_reg_r (pow2 (Z.pos p))); [done|].
    rewrite Rmult_assoc, Rinv_l by lra. lra.
Qed.

Lemma py_int_finite (x : float) :
  is_finite x = true -> exists z, py_int x = Ok z.
Proof. destruct x; simpl; try discriminate; eauto. Qed.

(** *** The focus pixel and the crop extent *)

(** The focus pixel exists for every fraction in [0, 1]. *)
Lemma focus_pixel_total (n : Z) (x : float) :
  0 < n < 2 ^ 48 -> in_unit_interval x -> exists z, focus_pixel n x = Ok z.
Proof.
  intros Hn (Hvalid & H0 & H1).
  destruct (py_float_exact n) as (m & e & Heq & Hd & He & Hm); [lia|].
  assert (Hlog : 0 <= Z.log2 n < 48).
  { split; [apply Z.log2_nonneg|]. apply Z.log2_lt_pow2; lia. }
  unfold focus_pixel. rewrite Heq. simpl.
  apply py_int_finite.
  destruct x as [s| s | |s mx ex]; try discriminate.
  - reflexivity.
  - destruct s; discriminate.
  - destruct s; [discriminate|].
    assert (Hex : ex <= -52).
    { unfold SFleb, SFcompare, one in H1.
      destruct (Z.compare_spec ex (-52)); try lia; discriminate. }
    assert (Hdx : Z.pos (digits2_pos mx) <= 53).
    { simpl in Hvalid. unfold bounded, canonical_mantissa in Hvalid.
      apply andb_prop in Hvalid as [Hc _]. apply Z.eqb_eq in Hc.
      unfold fexp, SpecFloat.emin, prec, emax in Hc. lia. }
    unfold py_mul, SFmul. apply binary_round_aux_finite; [lia|].
    pose proof (mantissa_bounds m Hd) as Hmb.
    pose proof (digits2_pos_bounds mx) as [_ Hmx].
    assert (Hprod : Z.pos (m * mx) < 2 ^ (53 + Z.pos (digits2_pos mx))).
    { rewrite Pos2Z.inj_mul, Z.pow_add_r by lia. nia. }
    pose proof (digits2_pos_le _ _ Hprod). lia.
Qed.

Lemma eps_value : eps = (/ 4503599627370496)%R.
Proof. reflexivity. Qed.

(** The crop extent: the plan exists, and the extent along the trimmed
    axis is between 0 and the extent of the source along that axis. *)
Lemma crop_plan_extent (w h tw th : Z) (px py : float) :
  0 < w < 2 ^ 48 -> 0 < h < 2 ^ 48 -> 0 < tw < 2 ^ 48 -> 0 < th < 2 ^ 48 ->
  in_unit_interval px -> in_unit_interval py ->
  exists wide focus_x focus_y extent,
    crop_plan w h tw th px py = Ok (wide, (focus_x, focus_y), extent)
    /\ 0 <= extent <= (if wide then w else h).
Proof.
  intros Hw Hh Htw Hth Hpx Hpy.
  destruct (focus_pixel_total w px Hw Hpx) as [fx Hfx].
  destruct (focus_pixel_total h py Hh Hpy) as [fy Hfy].
  destruct (py_float_normal w Hw) as (w' & Ew & Nw & Vw).
  destruct (py_float_normal h Hh) as (h' & Eh & Nh & Vh).
  destruct (py_float_normal tw Htw) as (tw' & Etw & Ntw & Vtw).
  destruct (py_float_normal th Hth) as (th' & Eth & Nth & Vth).
  destruct (SFdiv_normal w' h' _ _ _ _ Nw Nh) as (orig & Eo & No & Vo); [lia|lia|].
  destruct (SFdiv_normal tw' th' _ _ _ _ Ntw Nth) as (target & Et & Nt & Vt); [lia|lia|].
  simpl in No, Nt.
  unfold crop_plan. rewrite Hfx, Hfy, Ew, Eh; simpl. rewrite Eo, Etw, Eth; simpl.
  rewrite Et; simpl.
  pose proof (py_ge_normal orig target _ _ _ _ No Nt) as Hge.
  pose proof (normal_pos _ _ _ No) as Hopos.
  pose proof (normal_pos _ _ _ Nt) as Htpos.
  assert (HW : (0 < IZR w < 281474976710656)%R).
  { split; [apply IZR_lt; lia|]. apply IZR_lt. change 281474976710656 with (2 ^ 48). lia. }
  assert (HH : (0 < IZR h < 281474976710656)%R).
  { split; [apply IZR_lt; lia|]. apply IZR_lt. change 281474976710656 with (2 ^ 48). lia. }
  rewrite Vw, Vh in Vo.
  destruct (py_ge orig target).
  - (* trimmed on the left and on the right *)
    destruct (SFmul_normal target h' _ _ _ _ Nt Nh) as [Nx Vx]; [lia|lia|].
    simpl in Nx. rewrite Vh in Vx.
    destruct (SFadd_half_normal _ _ _ Nx) as [Ny Vy]; [lia|lia|].
    destruct (py_int_normal _ _ _ Ny) as (z & Ez & Hz0 & Hz).
    unfold round_half_up. rewrite Ez; simpl.
    exists true, fx, fy, z. split; [reflexivity|]. split; [done|].
    assert (Hth1 : (F2R target * IZR h <= IZR w * (1 + eps))%R).
    { apply Rle_trans with (F2R orig * IZR h)%R.
      - apply Rmult_le_compat_r; lra.
      - apply Rle_trans with (IZR w / IZR h * (1 + eps) * IZR h)%R.
        + apply Rmult_le_compat_r; lra.
        + right. field. lra. }
    set (X := F2R (py_mul target h')) in *.
    set (Y := F2R (py_add (py_mul target h') half)) in *.
    set (T := (F2R target * IZR h)%R) in *.
    assert (HY : (Y < IZR w + 1)%R).
    { rewrite eps_value in *. lra. }
    assert (Hlt : (IZR z < IZR (w + 1))%R) by (rewrite plus_IZR; lra).
    apply lt_IZR in Hlt. lia.
  - (* trimmed at the top and at the bottom *)
    destruct (SFdiv_normal w' target _ _ _ _ Nw Nt) as (q & Eq & Nq & Vq); [lia|lia|].
    simpl in Nq. rewrite Vw in Vq. rewrite Eq; simpl.
    destruct (SFadd_half_normal _ _ _ Nq) as [Ny Vy]; [lia|lia|].
    destruct (py_int_normal _ _ _ Ny) as (z & Ez & Hz0 & Hz).
    unfold round_half_up. rewrite Ez; simpl.
    exists false, fx, fy, z. split; [reflexivity|]. split; [done|].
    set (T := (IZR w / F2R target)%R) in *.
    assert (HT : (T * (1 - eps) <= IZR h)%R).
    { apply (Rmult_le_reg_l (F2R target)); [done|].
      apply Rle_trans with (IZR w * (1 - eps))%R.
      - right. unfold T. field. lra.
      - apply Rle_trans with (F2R orig * IZR h)%R.
        + apply Rle_trans with (IZR w / IZR h * (1 - eps) * IZR h)%R.
          * right. field. lra.
          * apply Rmult_le_compat_r; lra.
        + apply Rmult_le_compat_r; lra. }
    set (Q := F2R q) in *.
    set (Y := F2R (py_add q half)) in *.
    assert (HY : (Y < IZR h + 1)%R).
    { rewrite eps_value in *. lra. }
    assert (Hlt : (IZR z < IZR (h + 1))%R) by (rewrite plus_IZR; lra).
    apply lt_IZR in Hlt. lia.
Qed.

(** ** The registry *)

Section RegistryFacts.
Context `{Pillow}.

Lemma getitem_Some (P : gmap string Factory) name fn :
  P !! name = Some fn -> getitem P name = Ok fn.
Proof. intros E. unfold getitem. by rewrite E. Qed.

Lemma getitem_None (P : gmap string Factory) name :
  P !! name = None -> getitem P name = Raise (KeyError name).
Proof. intros E. unfold getitem. by rewrite E. Qed.

(** C8, as it holds of the code: [register] files the function under its name,
    replacing whatever was filed under that name before; every other name
    keeps its factory, and no name is ever removed. *)
Theorem register_overwrites_and_keeps (fn : Function) (P : gmap string Factory) :
  (register fn P).1 = fn
  /\ (register fn P).2 !! __name__ fn = Some (__call__ fn)
  /\ (forall name, name <> __name__ fn -> (register fn P).2 !! name = P !! name)
  /\ (forall name, is_Some (P !! name) -> is_Some ((register fn P).2 !! name)).
Proof.
  unfold register; simpl. repeat split.
  - apply lookup_insert_eq.
  - intros name Hne. by apply lookup_insert_ne.
  - intros name [f Hf]. destruct (decide (__name__ fn = name)) as [->|Hne].
    + rewrite lookup_insert_eq. eauto.
    + rewrite lookup_insert_ne by done. eauto.
Qed.

End RegistryFacts.

Section RegistryExamples.
Import Reference.

(** C8, counterexample: two functions registered under the name [crop];
    after the second call the registry answers with the second one, and
    the first is gone. *)
Lemma register_same_name_replaces :
  let first := {| __name__ := "crop"; __call__ := crop |} in
  let second := {| __name__ := "crop"; __call__ := thumbnail |} in
  let P := (register second (register first ∅).2).2 in
  P !! "crop" = Some (thumbnail (H := Reference.pillow))
  /\ P !! "crop" <> Some (crop (H := Reference.pillow)).
Proof.
  cbv zeta. unfold register; simpl. rewrite lookup_insert_eq. split; [done|].
  intros E. injection E as E.
  assert (E' : thumbnail identity_handler [] = crop identity_handler [])
    by (by rewrite E).
  discriminate E'.
Qed.

Lemma register_overwrites_and_keeps_witness :
  let fn := {| __name__ := "crop"; __call__ := thumbnail (H := Reference.pillow) |} in
  let P := (register {| __name__ := "crop"; __call__ := crop |} ∅).2 in
  (register fn P).2 !! "crop" = Some thumbnail.
Proof.
  exact (proj1 (proj2 (register_overwrites_and_keeps
    {| __name__ := "crop"; __call__ := thumbnail |}
    (register {| __name__ := "crop"; __call__ := crop |} ∅).2))).
Defined.

End RegistryExamples.

(** ** The processors *)

Section ProcessorFacts.
Context `{Pillow}.

Lemma rotations_lookup (orientation : Z) :
  rotations !! orientation =
    if decide (orientation = 3) then Some ROTATE_180
    else if decide (orientation = 6) then Some ROTATE_270
    else if decide (orientation = 8) then Some ROTATE_90
    else None.
Proof.
  unfold rotations.
  repeat case_decide; subst; simplify_map_eq; done.
Qed.

(** C9: [autorotate] turns the image by the method filed under its EXIF
    orientation (3: 180 degrees, 6: 270 degrees, 8: 90 degrees) and hands
    the turned image to the next handler; an image without [_getexif],
    without EXIF data, without the orientation tag or with another
    orientation goes to the next handler as it is. *)
Theorem autorotate_rotates_by_orientation (get_image : Handler) (args : Args) :
  exists processor,
    autorotate get_image args = Ok processor
    /\ forall image context,
        (forall exif orientation rotation,
            Image_has_getexif image = true ->
            Image_getexif image = Ok (Some exif) ->
            exif !! 274 = Some orientation ->
            (orientation, rotation) ∈ [(3, ROTATE_180); (6, ROTATE_270); (8, ROTATE_90)] ->
            processor image context =
              (image' ← Image_transpose image rotation; get_image image' context))
        /\ (Image_has_getexif image = false ->
            processor image context = get_image image context)
        /\ (Image_getexif image = Ok None ->
            processor image context = get_image image context)
        /\ (forall exif,
            Image_getexif image = Ok (Some exif) ->
            exif !! 274 = None ->
            processor image context = get_image image context)
        /\ (forall exif orientation,
            Image_getexif image = Ok (Some exif) ->
            exif !! 274 = Some orientation ->
            orientation ∉ [3; 6; 8] ->
            processor image context = get_image image context).
Proof.
  eexists; split; [reflexivity|].
  intros image context. repeat split.
  - intros exif orientation rotation Hattr Hexif Htag Hin.
    rewrite Hattr, Hexif; simpl.
    destruct (decide (exif = ∅)) as [->|_]; [by rewrite lookup_empty in Htag|].
    rewrite Htag; simpl. rewrite rotations_lookup.
    set_unfold in Hin.
    destruct Hin as [Hin|[Hin|[Hin|[]]]]; injection Hin as -> ->; reflexivity.
  - intros ->. reflexivity.
  - intros Hexif. destruct (Image_has_getexif image); [|reflexivity].
    simpl. by rewrite Hexif.
  - intros exif Hexif Htag. destruct (Image_has_getexif image); [|reflexivity].
    simpl. rewrite Hexif; simpl.
    destruct (decide (exif = ∅)); [reflexivity|]. by rewrite Htag.
  - intros exif orientation Hexif Htag Hnot.
    destruct (Image_has_getexif image); [|reflexivity].
    simpl. rewrite Hexif; simpl.
    destruct (decide (exif = ∅)); [reflexivity|]. rewrite Htag; simpl.
    rewrite rotations_lookup. set_unfold in Hnot.
    repeat case_decide; try reflexivity; exfalso; apply Hnot; auto.
Qed.

(** C7: on a GIF [preprocess_gif] copies the transparency index, when the
    image has one, into the save options, calls the next handler once with
    the image, and puts the palette the image had on entry onto the image
    that handler returned; so, Pillow's [putpalette] installing the palette
    it is given, the image that comes out has the palette of the image that
    came in.  Any other image goes to the next handler with the context as
    it is. *)
Theorem preprocess_gif_restores_palette (get_image : Handler) (args : Args)
    (putpalette_installs : forall image palette image',
        Image_putpalette image palette = Ok image' ->
        Image_getpalette image' = palette) :
  exists processor,
    preprocess_gif get_image args = Ok processor
    /\ forall image context,
        (Image_format image = Some "GIF" ->
            exists context1,
              save_kwargs context1 =
                match Image_info image !! "transparency" with
                | Some transparency =>
                    <["transparency" := transparency]> (save_kwargs context)
                | None => save_kwargs context
                end
              /\ ppoi context1 = ppoi context
              /\ processor image context =
                   ('(image', context') ← get_image image context1;
                    image'' ← Image_putpalette image' (Image_getpalette image);
                    Ok (image'', context'))
              /\ forall image'' context'',
                   processor image context = Ok (image'', context'') ->
                   Image_getpalette image'' = Image_getpalette image)
        /\ (Image_format image <> Some "GIF" ->
            processor image context = get_image image context).
Proof.
  eexists; split; [reflexivity|].
  intros image context; split.
  - intros Hgif. simpl.
    destruct (decide (Image_format image = Some "GIF")) as [_|n]; [|done].
    exists (match Image_info image !! "transparency" with
            | Some transparency => set_save_kwarg context "transparency" transparency
            | None => context
            end).
    repeat split.
    + destruct (Image_info image !! "transparency"); reflexivity.
    + destruct (Image_info image !! "transparency"); reflexivity.
    + intros image'' context''.
      destruct (get_image _ _) as [[image' context']|e]; simpl; [|done].
      destruct (Image_putpalette _ _) as [i|e] eqn:Hput; simpl; [|done].
      intros [= <- <-]. eauto.
  - intros Hnot. simpl.
    destruct (decide (Image_format image = Some "GIF")); done.
Qed.

End ProcessorFacts.

Section ProcessorExamples.
Import Reference.

Lemma autorotate_rotates_by_orientation_witness :
  exists processor image,
    autorotate (H := Reference.pillow) identity_handler [] = Ok processor
    /\ Reference.r_open ["J"%byte; x00; x04; x00; x02; x06] = Ok image
    /\ processor image {| ppoi := (half, half); save_kwargs := ∅ |} =
         (image' ← Image_transpose image ROTATE_270;
          identity_handler image' {| ppoi := (half, half); save_kwargs := ∅ |}).
Proof.
  destruct (autorotate_rotates_by_orientation (H := Reference.pillow)
              identity_handler []) as (processor & Hp & Hspec).
  exists processor. eexists. split; [exact Hp|]. split; [reflexivity|].
  eapply (proj1 (Hspec _ _) {[ 274 := 6 ]} 6 ROTATE_270);
    [reflexivity | reflexivity | reflexivity
    | apply list_elem_of_further, list_elem_of_here].
Defined.

Lemma preprocess_gif_restores_palette_witness :
  (forall image palette image',
      Reference.r_putpalette image palette = Ok image' ->
      Reference.r_palette image' = palette)
  /\ exists processor,
      preprocess_gif (H := Reference.pillow)
        (fun image context => image' ← Image_convert image "L"; Ok (image', context)) []
      = Ok processor
      /\ forall image context,
          (Image_format image = Some "GIF" ->
              exists context1,
                save_kwargs context1 =
                  match Image_info image !! "transparency" with
                  | Some transparency =>
                      <["transparency" := transparency]> (save_kwargs context)
                  | None => save_kwargs context
                  end
                /\ ppoi context1 = ppoi context
                /\ processor image context =
                     ('(image', context') ←
                        (image' ← Image_convert image "L"; Ok (image', context1));
                      image'' ← Image_putpalette image' (Image_getpalette image);
                      Ok (image'', context'))
                /\ forall image'' context'',
                     processor image context = Ok (image'', context'') ->
                     Image_getpalette image'' = Image_getpalette image)
          /\ (Image_format image <> Some "GIF" ->
              processor image context =
                (image' ← Image_convert image "L"; Ok (image', context))).
Proof.
  assert (Hlaw : forall image palette image',
             Reference.r_putpalette image palette = Ok image' ->
             Reference.r_palette image' = palette).
  { intros image [data|] image'; unfold Reference.r_putpalette; [|done].
    destruct (decide _); [|done]. by intros [= <-]. }
  split; [exact Hlaw|].
  exact (preprocess_gif_restores_palette (H := Reference.pillow) _ [] Hlaw).
Defined.

End ProcessorExamples.

(** ** The pipeline builder *)

Section BuilderFacts.
Context `{Pillow}.

Lemma build_handler_loop_app P handler (l1 l2 : list ProcessorSpec) :
  build_handler_loop P handler (l1 ++ l2) =
    (handler' ← build_handler_loop P handler l1; build_handler_loop P handler' l2).
Proof.
  revert handler; induction l1 as [|part l1 IH]; intros handler; [reflexivity|].
  simpl. destruct part; simpl;
    (destruct (getitem P name) as [fn|e]; simpl; [|reflexivity]);
    (destruct (fn handler _) as [h|e]; simpl; [apply IH|reflexivity]).
Qed.

(** The handler of a list is the processor of its last entry, wrapped
    around the handler of the entries before it: the last entry is the
    outermost and runs first. *)
Lemma build_handler_snoc P (processors : list ProcessorSpec) part :
  build_handler P (processors ++ [part]) =
    (inner ← build_handler P processors; wrap P inner part).
Proof.
  unfold build_handler. rewrite build_handler_loop_app.
  destruct (build_handler_loop P identity_handler processors) as [h|e];
    simpl; [|reflexivity].
  destruct part; simpl;
    (destruct (getitem P name) as [fn|e]; simpl; [|reflexivity]);
    by destruct (fn h _).
Qed.

Lemma wrap_unknown P handler part :
  P !! spec_name part = None -> wrap P handler part = Raise (KeyError (spec_name part)).
Proof. intros E. destruct part; simpl in *; by rewrite (getitem_None _ _ E). Qed.

Lemma build_handler_loop_cons P handler part rest :
  build_handler_loop P handler (part :: rest) =
    (handler' ← wrap P handler part; build_handler_loop P handler' rest).
Proof. by destruct part. Qed.

(** A list with an unknown name never builds. *)
Lemma build_handler_loop_unknown P (processors : list ProcessorSpec) handler :
  (exists part, part ∈ processors /\ P !! spec_name part = None) ->
  exists e, build_handler_loop P handler processors = Raise e.
Proof.
  intros (part & Hin & Hnone). revert handler.
  induction processors as [|p rest IH]; intros handler; [by set_unfold|].
  rewrite build_handler_loop_cons.
  destruct (wrap P handler p) as [h|e] eqn:Hw; simpl; [|eauto].
  apply elem_of_cons in Hin as [->|Hin]; [|by apply IH].
  rewrite wrap_unknown in Hw by done. discriminate.
Qed.

(** When the entries before the unknown name build, the error is the
    [KeyError] of that name. *)
Lemma build_handler_first_unknown P (before after : list ProcessorSpec) part inner :
  build_handler P before = Ok inner ->
  P !! spec_name part = None ->
  build_handler P (before ++ part :: after) = Raise (KeyError (spec_name part)).
Proof.
  unfold build_handler. intros Hb Hnone.
  rewrite build_handler_loop_app, Hb.
  destruct part; simpl in *; by rewrite (getitem_None _ _ Hnone).
Qed.

End BuilderFacts.

Section BuilderExamples.
Import Reference.

(** C1: the declared order is not kept.  A JPEG of 1000 by 500 pixels is
    taken through the default [always] entries followed by
    [thumbnail (100, 100)] and [crop (200, 200)], as [process_image] does.
    The Pillow calls on the image are those of [crop], then those of
    [thumbnail]: the last entry ran first, the image is 100 by 100 and not
    200 by 200, and [preprocess_jpeg], which stands before both in the
    list, ran after both, on an image without a source format, and set no
    quality.  Built from the reversed list the handler does run in the
    declared order: [preprocess_jpeg] sets the quality, [thumbnail] runs,
    then [crop], and the image is 200 by 200. *)
Theorem build_handler_runs_last_entry_first :
  let processors := [WithArgs "thumbnail" [(100, 100)]; WithArgs "crop" [(200, 200)]] in
  let context := {| ppoi := (half, half); save_kwargs := ∅ |} in
  exists image,
    Reference.r_open Reference.jpeg_1000x500 = Ok image
    /\ (exists handler image' context',
          build_handler (H := Reference.pillow) PROCESSORS (always_default ++ processors)
          = Ok handler
          /\ handler image context = Ok (image', context')
          /\ Reference.r_ops image' =
               [Reference.Op_crop (250, 0, 750, 500); Reference.Op_resize (200, 200);
                Reference.Op_copy; Reference.Op_thumbnail (100, 100)]
          /\ Reference.r_size image' = (100, 100)
          /\ save_kwargs context' !! "quality" = None)
    /\ (exists handler image' context',
          build_handler (H := Reference.pillow) PROCESSORS
            (reverse (always_default ++ processors)) = Ok handler
          /\ handler image context = Ok (image', context')
          /\ Reference.r_ops image' =
               [Reference.Op_copy; Reference.Op_thumbnail (100, 100);
                Reference.Op_crop (25, 0, 75, 50); Reference.Op_resize (200, 200)]
          /\ Reference.r_size image' = (200, 200)
          /\ save_kwargs context' !! "quality" = Some (VInt 90)).
Proof.
  cbv zeta. eexists. split; [reflexivity|]. split.
  - do 3 eexists. split; [reflexivity|].
    split; [vm_compute; reflexivity|].
    repeat split; vm_compute; reflexivity.
  - do 3 eexists. split; [reflexivity|].
    split; [vm_compute; reflexivity|].
    repeat split; vm_compute; reflexivity.
Qed.

End BuilderExamples.

(** ** The render driver *)

Section DriverFacts.
Context `{Pillow} `{Storage}.

Ltac run_driver :=
  unfold process_image, mbind, M_bind, mret, M_ret, call, call_mut, record_call;
  simpl.

(** C6: with [force] off and the storage answering that the target exists,
    [process_image] returns at once: the only call it makes is
    [storage.exists]; the source is not opened or decoded, no handler is
    built or called, and the storage is as before, whatever the source, the
    registry and the processors are. *)
Theorem process_image_existing_target_returns_at_once
    (P : gmap string Factory) (file : FieldFile) (target : string)
    (processors : list ProcessorSpec) (ppoi : float * float)
    (always : list ProcessorSpec) (w : World) :
  storage_exists (storage w) target = Ok true ->
  process_image P file target processors ppoi false always w =
    (Ok tt, {| storage := storage w;
               calls := calls w ++ [Call_storage_exists target] |}).
Proof. intros Hex. run_driver. by rewrite Hex. Qed.

Ltac step_driver Hr :=
  match goal with
  | |- context [match ?x with Ok _ => _ | Raise _ => _ end] =>
      let E := fresh "E" in
      destruct x eqn:E; try rewrite E in Hr; simpl in *
  | |- context [let '(_, _) := ?x in _] =>
      let E := fresh "E" in
      destruct x eqn:E; try rewrite E in Hr; simpl in *
  end.

Ltac close_driver :=
  do 2 eexists; split;
  [ rewrite <- ?app_assoc; simpl; reflexivity | ].

(** C2: when reading or decoding the source, building the handler, any
    processor or the encoding into the buffer raises, [process_image]
    leaves the storage as it found it and calls neither [storage.delete]
    nor [storage.save]; unless it returned at once for an existing target,
    it raises that same error. *)
Theorem process_image_failure_leaves_storage
    (P : gmap string Factory) (file : FieldFile) (target : string)
    (processors : list ProcessorSpec) (ppoi : float * float) (force : bool)
    (always : list ProcessorSpec) (w : World) (e : exn) :
  rendition P file processors ppoi always (storage w) = Raise e ->
  exists r cs,
    process_image P file target processors ppoi force always w =
      (r, {| storage := storage w; calls := calls w ++ cs |})
    /\ no_mutation cs
    /\ (proceeds force w target -> r = Raise e).
Proof.
  intros Hr. unfold rendition in Hr. unfold proceeds, no_mutation.
  run_driver. destruct force; simpl.
  - repeat step_driver Hr; try discriminate Hr; close_driver;
      (split; [repeat constructor | intros _; congruence]).
  - step_driver Hr; [|close_driver; split; [repeat constructor|intros [|]; congruence]].
    destruct a; simpl.
    { close_driver. split; [repeat constructor|intros [|]; congruence]. }
    repeat step_driver Hr; try discriminate Hr; close_driver;
      (split; [repeat constructor | intros _; congruence]).
Qed.

Ltac tail_driver Hr :=
  destruct (storage_open _ _) as [orig|]; simpl in *; [|discriminate];
  destruct (Image_open orig) as [image|]; simpl in *; [|discriminate];
  destruct (build_handler _ _) as [handler|]; simpl in *; [|discriminate];
  destruct (handler image _) as [[image' context]|]; simpl in *; [|discriminate];
  rewrite Hr; simpl;
  destruct (storage_delete _ _) as [[u|e] st1]; simpl;
  [destruct (storage_save st1 _ _) as [[name|e] st2]; simpl|];
  rewrite <- ?app_assoc; reflexivity.

(** When the buffer is there, the render deletes the target and saves
    that buffer under it, in this order, and these are its only calls that
    change the storage. *)
Lemma process_image_stores_rendition
    (P : gmap string Factory) (file : FieldFile) (target : string)
    (processors : list ProcessorSpec) (ppoi : float * float) (force : bool)
    (always : list ProcessorSpec) (w : World) (buf : bytes) :
  rendition P file processors ppoi always (storage w) = Ok buf ->
  proceeds force w target ->
  exists cs,
    no_mutation cs
    /\ process_image P file target processors ppoi force always w =
         let '(deleted, st1) := storage_delete (storage w) target in
         match deleted with
         | Raise e =>
             (Raise e, {| storage := st1;
                          calls := calls w ++ cs ++ [Call_storage_delete target] |})
         | Ok _ =>
             let '(saved, st2) := storage_save st1 target buf in
             (match saved with Ok _ => Ok tt | Raise e => Raise e end,
              {| storage := st2;
                 calls := calls w ++ cs ++ [Call_storage_delete target;
                                            Call_storage_save target buf] |})
         end.
Proof.
  intros Hr Hgo. unfold rendition in Hr. unfold proceeds, no_mutation in *.
  run_driver.
  assert (Hpre : exists pre,
             pre = (if force then [] else [Call_storage_exists target])
             /\ Forall (fun c => is_mutation c = false) pre).
  { eexists; split; [reflexivity|]. destruct force; repeat constructor. }
  destruct Hpre as (pre & Hpre & Hpre_ok).
  exists (pre ++ [Call_file_open (file_name file); Call_Image_open;
                  Call_build_handler; Call_handler; Call_image_save]).
  split; [apply Forall_app; split; [done|repeat constructor]|].
  destruct force; simpl; subst pre.
  - tail_driver Hr.
  - destruct Hgo as [Hf|Hex]; [discriminate|]. rewrite Hex; simpl.
    tail_driver Hr.
Qed.

Ltac not_in_calls :=
  let Hin := fresh "Hin" in
  intros Hin; apply list_elem_of_In in Hin; simpl in Hin; intuition discriminate.

Ltac leaf_driver Hb Hkey :=
  rewrite <- ?app_assoc; simpl;
  split; [reflexivity|];
  split; [repeat constructor|];
  split; [not_in_calls|];
  split; [first [discriminate | done | intros _; split; reflexivity]|];
  split; [|intros; rewrite <- Hb; eapply Hkey; eassumption].

(** C5, as it holds of the code: with a name in the list that the registry does not
    have, [process_image] never calls a handler, [storage.delete] or
    [storage.save], and the storage is as before.  It succeeds only by
    returning at once for an existing target with [force] off.  Otherwise
    it first opens and decodes the source, and once both succeed the build
    of the handler raises, right after [Image.open]; the error is the
    [KeyError] of the unknown name when the entries before it build. *)
Theorem process_image_unknown_processor
    (P : gmap string Factory) (file : FieldFile) (target : string)
    (processors : list ProcessorSpec) (ppoi : float * float) (force : bool)
    (always : list ProcessorSpec) (w : World) :
  (exists part, part ∈ always ++ processors /\ P !! spec_name part = None) ->
  exists r cs,
    process_image P file target processors ppoi force always w =
      (r, {| storage := storage w; calls := calls w ++ cs |})
    /\ no_mutation cs
    /\ (Call_handler ∉ cs)
    /\ (r = Ok tt -> force = false /\ storage_exists (storage w) target = Ok true)
    /\ (proceeds force w target ->
        forall orig image,
          storage_open (storage w) (file_name file) = Ok orig ->
          Image_open orig = Ok image ->
          exists e cs0,
            build_handler P (always ++ processors) = Raise e
            /\ r = Raise e
            /\ cs = cs0 ++ [Call_file_open (file_name file); Call_Image_open;
                            Call_build_handler])
    /\ (forall before part after inner,
          always ++ processors = before ++ part :: after ->
          build_handler P before = Ok inner ->
          P !! spec_name part = None ->
          build_handler P (always ++ processors) = Raise (KeyError (spec_name part))).
Proof.
  intros Hunknown.
  destruct (build_handler_loop_unknown P _ identity_handler Hunknown) as [e Hb].
  fold (build_handler P (always ++ processors)) in Hb.
  assert (Hkey : forall before part after inner,
             always ++ processors = before ++ part :: after ->
             build_handler P before = Ok inner ->
             P !! spec_name part = None ->
             build_handler P (always ++ processors) = Raise (KeyError (spec_name part))).
  { intros before part after inner -> Hin Hnone.
    by eapply build_handler_first_unknown. }
  unfold proceeds, no_mutation. run_driver. rewrite Hb.
  destruct force; simpl.
  - destruct (storage_open _ _) as [orig|e1] eqn:Eo; simpl.
    + destruct (Image_open orig) as [image|e2] eqn:Ei; simpl.
      * exists (Raise e), [Call_file_open (file_name file); Call_Image_open;
                           Call_build_handler].
        leaf_driver Hb Hkey. intros _ orig' image' _ _. by exists e, [].
      * exists (Raise e2), [Call_file_open (file_name file); Call_Image_open].
        leaf_driver Hb Hkey. intros _ orig' image' [= <-] Hi. congruence.
    + exists (Raise e1), [Call_file_open (file_name file)].
      leaf_driver Hb Hkey. intros _ orig' image' Ho. congruence.
  - destruct (storage_exists _ _) as [[|]|e0] eqn:Ee; simpl.
    + exists (Ok tt), [Call_storage_exists target].
      leaf_driver Hb Hkey. intros [|]; congruence.
    + destruct (storage_open _ _) as [orig|e1] eqn:Eo; simpl.
      * destruct (Image_open orig) as [image|e2] eqn:Ei; simpl.
        -- exists (Raise e), [Call_storage_exists target; Call_file_open (file_name file);
                              Call_Image_open; Call_build_handler].
           leaf_driver Hb Hkey.
           intros _ orig' image' _ _. by exists e, [Call_storage_exists target].
        -- exists (Raise e2), [Call_storage_exists target; Call_file_open (file_name file);
                               Call_Image_open].
           leaf_driver Hb Hkey. intros _ orig' image' [= <-] Hi. congruence.
      * exists (Raise e1), [Call_storage_exists target; Call_file_open (file_name file)].
        leaf_driver Hb Hkey. intros _ orig' image' Ho. congruence.
    + exists (Raise e0), [Call_storage_exists target].
      leaf_driver Hb Hkey. intros [|]; congruence.
Qed.

End DriverFacts.

(** ** The driver on concrete inputs *)

Section DriverExamples.
Import Reference.

Lemma process_image_existing_target_returns_at_once_witness :
  storage_exists (storage sample_world) "rendition.jpg" = Ok true
  /\ process_image PROCESSORS {| file_name := "missing.jpg" |} "rendition.jpg"
       [Bare "unknown"] (half, half) false always_default sample_world
     = (Ok tt, {| storage := sample_storage;
                  calls := [Call_storage_exists "rendition.jpg"] |}).
Proof.
  split; [vm_compute; reflexivity|].
  apply (process_image_existing_target_returns_at_once PROCESSORS
           {| file_name := "missing.jpg" |} "rendition.jpg" [Bare "unknown"]
           (half, half) always_default sample_world).
  vm_compute; reflexivity.
Defined.

(** A crop to height zero divides by zero inside the handler. *)
Lemma process_image_failure_leaves_storage_witness :
  rendition PROCESSORS {| file_name := "source.jpg" |} [WithArgs "crop" [(200, 0)]]
    (half, half) always_default (storage sample_world) = Raise ZeroDivisionError
  /\ exists r cs,
      process_image PROCESSORS {| file_name := "source.jpg" |} "rendition.jpg"
        [WithArgs "crop" [(200, 0)]] (half, half) true always_default sample_world
      = (r, {| storage := storage sample_world; calls := calls sample_world ++ cs |})
      /\ no_mutation cs
      /\ (proceeds true sample_world "rendition.jpg" -> r = Raise ZeroDivisionError).
Proof.
  split; [vm_compute; reflexivity|].
  apply (process_image_failure_leaves_storage PROCESSORS
           {| file_name := "source.jpg" |} "rendition.jpg"
           [WithArgs "crop" [(200, 0)]] (half, half) true always_default
           sample_world ZeroDivisionError).
  vm_compute; reflexivity.
Defined.

(** Rendering twice with the same inputs: the second call only asks the
    storage whether the target exists, and leaves everything as the first
    call left it. *)
Example process_image_twice :
  let render := process_image PROCESSORS {| file_name := "source.jpg" |} "small.jpg"
                  [WithArgs "thumbnail" [(100, 100)]] (half, half) false always_default in
  let first := render sample_world in
  let second := render first.2 in
  first.1 = Ok tt
  /\ second.1 = Ok tt
  /\ storage second.2 = storage first.2
  /\ calls second.2 = calls first.2 ++ [Call_storage_exists "small.jpg"].
Proof. repeat split; vm_compute; reflexivity. Qed.

(** C5, counterexample: an unknown name in the list, and [process_image]
    succeeds, because the target exists; and where the target is missing,
    the source has been opened and decoded by the time the build fails. *)
Lemma process_image_unknown_processor_can_succeed :
  fst (process_image PROCESSORS {| file_name := "source.jpg" |} "rendition.jpg"
         [Bare "unknown"] (half, half) false always_default sample_world) = Ok tt
  /\ process_image PROCESSORS {| file_name := "source.jpg" |} "other.jpg"
       [Bare "unknown"] (half, half) false always_default sample_world
     = (Raise (KeyError "unknown"),
        {| storage := sample_storage;
           calls := [Call_storage_exists "other.jpg"; Call_file_open "source.jpg";
                     Call_Image_open; Call_build_handler] |}).
Proof. split; vm_compute; reflexivity. Qed.

Lemma process_image_unknown_processor_witness :
  (exists part, part ∈ always_default ++ [Bare "unknown"]
                /\ PROCESSORS !! spec_name part = None)
  /\ exists r cs,
      process_image PROCESSORS {| file_name := "source.jpg" |} "other.jpg"
        [Bare "unknown"] (half, half) false always_default sample_world
      = (r, {| storage := storage sample_world; calls := calls sample_world ++ cs |})
      /\ no_mutation cs
      /\ (Call_handler ∉ cs).
Proof.
  assert (Hu : exists part, part ∈ always_default ++ [Bare "unknown"]
                            /\ PROCESSORS !! spec_name part = None).
  { exists (Bare "unknown"). split; [|vm_compute; reflexivity].
    apply elem_of_app; right. apply list_elem_of_here. }
  split; [exact Hu|].
  destruct (process_image_unknown_processor PROCESSORS
              {| file_name := "source.jpg" |} "other.jpg" [Bare "unknown"]
              (half, half) false always_default sample_world Hu)
    as (r & cs & Heq & Hmut & Hcall & _).
  exists r, cs. auto.
Defined.

End DriverExamples.

(** ** The crop rectangle *)

Section CropFacts.
Context `{Pillow}.

(** [crop_boundaries] computes the planned rectangle, with the same
    errors. *)
Lemma crop_boundaries_plan (w h tw th : Z) (px py : float) :
  crop_boundaries (w, h) (px, py) tw th =
    (plan ← crop_plan w h tw th px py; Ok (planned_rectangle w h plan)).
Proof.
  unfold crop_boundaries, crop_plan, focus_pixel, round_half_up,
    planned_rectangle, shifted, centred; simpl.
  destruct (py_float w) as [w'|]; simpl; [|reflexivity].
  destruct (py_int (py_mul w' px)) as [focus_x|]; simpl; [|reflexivity].
  destruct (py_float h) as [h'|]; simpl; [|reflexivity].
  destruct (py_int (py_mul h' py)) as [focus_y|]; simpl; [|reflexivity].
  destruct (py_truediv w' h') as [orig|]; simpl; [|reflexivity].
  destruct (py_float tw) as [tw'|]; simpl; [|reflexivity].
  destruct (py_float th) as [th'|]; simpl; [|reflexivity].
  destruct (py_truediv tw' th') as [target|]; simpl; [|reflexivity].
  destruct (py_ge orig target); simpl.
  - destruct (py_int _) as [crop_width|]; simpl; [|reflexivity].
    repeat case_decide; reflexivity.
  - destruct (py_truediv w' target) as [q|]; simpl; [|reflexivity].
    destruct (py_int _) as [crop_height|]; simpl; [|reflexivity].
    repeat case_decide; reflexivity.
Qed.

(** C3: the processor of [crop] hands [image.crop] the planned rectangle
    (focus [int(w * px)], [int(h * py)]; when [w / h >= tw / th] the crop
    width is [int((tw / th) * h + 0.5)] over the full height, otherwise the
    crop height is [int(w / (tw / th) + 0.5)] over the full width), resizes
    the result to exactly [(tw, th)] and hands that to the next handler.
    While the centred window lies inside the image the rectangle is
    [left = focus - extent // 2], [right = left + extent].  For a source
    of 1000 by 500, a target of 200 by 200 and the point (0.5, 0.5) it is
    (250, 0, 750, 500). *)
Theorem crop_hands_over_the_planned_rectangle
    (get_image : Handler) (tw th : Z) (rest : Args) :
  (exists processor,
      crop get_image ((tw, th) :: rest) = Ok processor
      /\ forall image context,
          processor image context =
            (plan ← crop_plan (Image_size image).1 (Image_size image).2 tw th
                      (ppoi context).1 (ppoi context).2;
             cropped ← Image_crop image
                         (planned_rectangle (Image_size image).1 (Image_size image).2 plan);
             resized ← Image_resize cropped (tw, th) BICUBIC;
             get_image resized context))
  /\ (forall w h focus_x focus_y crop_width,
        0 <= focus_x - crop_width / 2 ->
        focus_x - crop_width / 2 + crop_width <= w ->
        planned_rectangle w h (true, (focus_x, focus_y), crop_width) =
          (focus_x - crop_width / 2, 0, focus_x - crop_width / 2 + crop_width, h))
  /\ (forall w h focus_x focus_y crop_height,
        0 <= focus_y - crop_height / 2 ->
        focus_y - crop_height / 2 + crop_height <= h ->
        planned_rectangle w h (false, (focus_x, focus_y), crop_height) =
          (0, focus_y - crop_height / 2, w, focus_y - crop_height / 2 + crop_height))
  /\ crop_plan 1000 500 200 200 half half = Ok (true, (500, 250), 500)
  /\ crop_boundaries (1000, 500) (half, half) 200 200 = Ok (250, 0, 750, 500).
Proof.
  split; [|split; [|split; [|split]]].
  - eexists; split; [reflexivity|]. intros image context.
    destruct (Image_size image) as [w h] eqn:Hs.
    destruct (ppoi context) as [px py] eqn:Hp.
    cbn beta iota. rewrite ?Hs, ?Hp, crop_boundaries_plan. simpl.
    by destruct (crop_plan w h tw th px py).
  - intros w h fx fy cw H0 H1. unfold planned_rectangle, shifted, centred; simpl.
    repeat case_decide; try reflexivity; lia.
  - intros w h fx fy ch H0 H1. unfold planned_rectangle, shifted, centred; simpl.
    repeat case_decide; try reflexivity; lia.
  - vm_compute; reflexivity.
  - vm_compute; reflexivity.
Qed.

(** C4, as it holds of the code: the processor of [crop] hands
    [image.crop] the window shifted, not shrunk.  Whenever the plan of the
    crop is computed, with the left/right axis trimmed: when the left edge
    of the centred window is negative the rectangle runs from 0 to the crop
    width; otherwise, when its right edge is past the source width, it runs
    from the source width minus the crop width to the source width; and the
    same from top to bottom when that axis is trimmed.  The rectangle
    always keeps the planned extent.  For a source and a target whose four
    dimensions are positive and below 2^48 and a point of interest with
    both fractions in [0, 1], the rectangle lies inside the image.  For a
    source of 1000 by 500, a target of 200 by 200 and the point
    (0.01, 0.5): left 0, right 500. *)
Theorem crop_shifts_the_window_inside
    (get_image : Handler) (tw th : Z) (rest : Args)
    (image : Image) (context : Context_)
    (wide : bool) (focus_x focus_y extent : Z) :
  crop_plan (Image_size image).1 (Image_size image).2 tw th
    (ppoi context).1 (ppoi context).2 = Ok (wide, (focus_x, focus_y), extent) ->
  exists processor x0 y0 x1 y1,
    crop get_image ((tw, th) :: rest) = Ok processor
    /\ processor image context =
         (cropped ← Image_crop image (x0, y0, x1, y1);
          resized ← Image_resize cropped (tw, th) BICUBIC;
          get_image resized context)
    /\ crop_boundaries (Image_size image) (ppoi context) tw th = Ok (x0, y0, x1, y1)
    /\ (wide = true ->
          (focus_x - extent / 2 < 0 ->
             (x0, y0, x1, y1) = (0, 0, extent, (Image_size image).2))
          /\ (0 <= focus_x - extent / 2 ->
              focus_x - extent / 2 + extent > (Image_size image).1 ->
              (x0, y0, x1, y1) =
                ((Image_size image).1 - extent, 0,
                 (Image_size image).1, (Image_size image).2)))
    /\ (wide = false ->
          (focus_y - extent / 2 < 0 ->
             (x0, y0, x1, y1) = (0, 0, (Image_size image).1, extent))
          /\ (0 <= focus_y - extent / 2 ->
              focus_y - extent / 2 + extent > (Image_size image).2 ->
              (x0, y0, x1, y1) =
                (0, (Image_size image).2 - extent,
                 (Image_size image).1, (Image_size image).2)))
    /\ (if wide then x1 - x0 = extent /\ y0 = 0 /\ y1 = (Image_size image).2
        else y1 - y0 = extent /\ x0 = 0 /\ x1 = (Image_size image).1)
    /\ (0 < (Image_size image).1 < 2 ^ 48 ->
        0 < (Image_size image).2 < 2 ^ 48 ->
        0 < tw < 2 ^ 48 ->
        0 < th < 2 ^ 48 ->
        in_unit_interval (ppoi context).1 ->
        in_unit_interval (ppoi context).2 ->
        (0 <= x0 <= x1 /\ x1 <= (Image_size image).1)
        /\ (0 <= y0 <= y1 /\ y1 <= (Image_size image).2))
    /\ crop_boundaries (1000, 500) (one_hundredth, half) 200 200 = Ok (0, 0, 500, 500).
Proof.
  destruct (Image_size image) as [w h] eqn:Hs.
  destruct (ppoi context) as [px py] eqn:Hp.
  simpl. intros Hplan.
  assert (Hbox : crop_boundaries (w, h) (px, py) tw th =
                   Ok (planned_rectangle w h (wide, (focus_x, focus_y), extent))).
  { by rewrite crop_boundaries_plan, Hplan. }
  destruct (planned_rectangle w h (wide, (focus_x, focus_y), extent))
    as [[[x0 y0] x1] y1] eqn:Hrect.
  eexists _, x0, y0, x1, y1. split; [reflexivity|].
  split; [cbn beta iota; rewrite ?Hs, ?Hp, Hbox; reflexivity|].
  split; [exact Hbox|].
  unfold planned_rectangle, shifted, centred in Hrect; simpl in Hrect.
  split; [|split; [|split; [|split]]].
  - intros ->. split; intros; repeat case_decide;
      injection Hrect as <- <- <- <-; try reflexivity; lia.
  - intros ->. split; intros; repeat case_decide;
      injection Hrect as <- <- <- <-; try reflexivity; lia.
  - destruct wide; repeat case_decide; injection Hrect as <- <- <- <-; lia.
  - intros Hw Hh Htw Hth Hpx Hpy.
    destruct (crop_plan_extent w h tw th px py Hw Hh Htw Hth Hpx Hpy)
      as (wide' & fx & fy & extent' & Hplan' & Hext).
    rewrite Hplan in Hplan'. injection Hplan' as <- <- <- <-.
    destruct wide; repeat case_decide; injection Hrect as <- <- <- <-; lia.
  - vm_compute; reflexivity.
Qed.

End CropFacts.

Section CropBounds.
Context `{Pillow}.

(** C10, as it holds of the code: for a source and a target whose four dimensions are
    positive and below 2^48, and a point of interest with both fractions in
    [0, 1], the processor of [crop] reaches [image.crop], and the rectangle
    it hands over lies inside the image: [0 <= left <= right <= width]
    and [0 <= top <= bottom <= height]. *)
Theorem crop_rectangle_inside_image
    (get_image : Handler) (tw th : Z) (rest : Args)
    (image : Image) (context : Context_) :
  0 < (Image_size image).1 < 2 ^ 48 ->
  0 < (Image_size image).2 < 2 ^ 48 ->
  0 < tw < 2 ^ 48 ->
  0 < th < 2 ^ 48 ->
  in_unit_interval (ppoi context).1 ->
  in_unit_interval (ppoi context).2 ->
  exists processor x0 y0 x1 y1,
    crop get_image ((tw, th) :: rest) = Ok processor
    /\ crop_boundaries (Image_size image) (ppoi context) tw th = Ok (x0, y0, x1, y1)
    /\ processor image context =
         (cropped ← Image_crop image (x0, y0, x1, y1);
          resized ← Image_resize cropped (tw, th) BICUBIC;
          get_image resized context)
    /\ (0 <= x0 <= x1 /\ x1 <= (Image_size image).1)
    /\ (0 <= y0 <= y1 /\ y1 <= (Image_size image).2).
Proof.
  destruct (Image_size image) as [w h] eqn:Hs.
  destruct (ppoi context) as [px py] eqn:Hp.
  simpl. intros Hw Hh Htw Hth Hpx Hpy.
  destruct (crop_plan_extent w h tw th px py Hw Hh Htw Hth Hpx Hpy)
    as (wide & fx & fy & extent & Hplan & Hext).
  assert (Hbox : crop_boundaries (w, h) (px, py) tw th =
                   Ok (planned_rectangle w h (wide, (fx, fy), extent))).
  { by rewrite crop_boundaries_plan, Hplan. }
  destruct (planned_rectangle w h (wide, (fx, fy), extent))
    as [[[x0 y0] x1] y1] eqn:Hrect.
  eexists _, x0, y0, x1, y1. split; [reflexivity|]. split; [exact Hbox|].
  split; [cbn beta iota; rewrite ?Hs, ?Hp, Hbox; reflexivity|].
  unfold planned_rectangle, shifted, centred in Hrect; simpl in Hrect.
  destruct wide; repeat case_decide; injection Hrect as <- <- <- <-; lia.
Qed.

End CropBounds.

Section CropExamples.
Import Reference.

(** The point (0.5, 0.5) is within the unit square. *)
Lemma half_in_unit_interval : in_unit_interval half.
Proof. repeat split. Qed.

(** C10, counterexample: a negative target width turns the window inside
    out, left of 750 and right of 251 in a source of 1000 by 500; and a
    source 2^52 + 1 pixels wide, cropped to its own size, gets a rectangle
    one pixel wider than itself. *)
Lemma crop_rectangle_outside_image :
  (exists x0 y0 x1 y1,
      crop_boundaries (1000, 500) (half, half) (-200) 200 = Ok (x0, y0, x1, y1)
      /\ ~ ((0 <= x0 <= x1 /\ x1 <= 1000) /\ (0 <= y0 <= y1 /\ y1 <= 500)))
  /\ (exists x0 y0 x1 y1,
      crop_boundaries (2 ^ 52 + 1, 1) (half, half) (2 ^ 52 + 1) 1 = Ok (x0, y0, x1, y1)
      /\ ~ ((0 <= x0 <= x1 /\ x1 <= 2 ^ 52 + 1) /\ (0 <= y0 <= y1 /\ y1 <= 1))).
Proof.
  split.
  - exists 750, 0, 251, 500. split; [vm_compute; reflexivity|lia].
  - exists 0, 0, (2 ^ 52 + 2), 1. split; [vm_compute; reflexivity|lia].
Qed.

Lemma crop_rectangle_inside_image_witness :
  exists processor x0 y0 x1 y1,
    crop identity_handler [(200, 200)] = Ok processor
    /\ crop_boundaries (1000, 500) (half, half) 200 200 = Ok (x0, y0, x1, y1)
    /\ processor sample_image (sample_context half half) =
         (cropped ← Image_crop sample_image (x0, y0, x1, y1);
          resized ← Image_resize cropped (200, 200) BICUBIC;
          identity_handler resized (sample_context half half))
    /\ (0 <= x0 <= x1 /\ x1 <= 1000)
    /\ (0 <= y0 <= y1 /\ y1 <= 500).
Proof.
  apply (crop_rectangle_inside_image (H := pillow) identity_handler 200 200 []
           sample_image (sample_context half half));
    first [exact half_in_unit_interval | simpl; lia].
Defined.

(** The literal [0.01] is within the unit interval. *)
Lemma one_hundredth_in_unit_interval : in_unit_interval one_hundredth.
Proof. repeat split. Qed.

(** C4, counterexample: a source 2^52 + 1 pixels wide and one pixel
    high, cropped to its own size around the point (0.5, 0.5).  The crop
    width is 2^52 + 2, as [w + 0.5] is not a binary64 number there and
    rounds up; the centred window starts at -1, so it is shifted to start
    at 0, and the rectangle handed to [image.crop] ends at 2^52 + 2, one
    pixel past the right edge of the image. *)
Lemma crop_shifted_window_sticks_out :
  exists processor image',
    crop_plan (2 ^ 52 + 1) 1 (2 ^ 52 + 1) 1 half half = Ok (true, (2 ^ 51, 0), 2 ^ 52 + 2)
    /\ 2 ^ 51 - (2 ^ 52 + 2) / 2 < 0
    /\ crop identity_handler [(2 ^ 52 + 1, 1)] = Ok processor
    /\ processor
         {| r_format := Some "JPEG"; r_mode := "RGB"; r_size := (2 ^ 52 + 1, 1);
            r_info := ∅; r_exif := Some None; r_palette := None; r_ops := [] |}
         (sample_context half half) = Ok (image', sample_context half half)
    /\ r_ops image' = [Op_crop (0, 0, 2 ^ 52 + 2, 1); Op_resize (2 ^ 52 + 1, 1)]
    /\ ~ (2 ^ 52 + 2 <= 2 ^ 52 + 1).
Proof.
  do 2 eexists.
  split; [vm_compute; reflexivity|].
  split; [vm_compute; reflexivity|].
  split; [reflexivity|].
  split; [vm_compute; reflexivity|].
  split; [reflexivity|]. lia.
Qed.

Lemma crop_shifts_the_window_inside_witness :
  crop_plan 1000 500 200 200 one_hundredth half = Ok (true, (10, 250), 500)
  /\ exists processor x0 y0 x1 y1,
      crop identity_handler [(200, 200)] = Ok processor
      /\ processor sample_image (sample_context one_hundredth half) =
           (cropped ← Image_crop sample_image (x0, y0, x1, y1);
            resized ← Image_resize cropped (200, 200) BICUBIC;
            identity_handler resized (sample_context one_hundredth half))
      /\ (x0, y0, x1, y1) = (0, 0, 500, 500)
      /\ (0 <= x0 <= x1 /\ x1 <= 1000)
      /\ (0 <= y0 <= y1 /\ y1 <= 500).
Proof.
  assert (Hplan : crop_plan 1000 500 200 200 one_hundredth half = Ok (true, (10, 250), 500))
    by (vm_compute; reflexivity).
  split; [exact Hplan|].
  destruct (crop_shifts_the_window_inside (H := pillow) identity_handler 200 200 []
              sample_image (sample_context one_hundredth half) true 10 250 500 Hplan)
    as (processor & x0 & y0 & x1 & y1 & Hc & Hrun & _ & Hwide & _ & _ & Hinside & _).
  exists processor, x0, y0, x1, y1.
  split; [exact Hc|]. split; [exact Hrun|].
  split; [apply (proj1 (Hwide eq_refl)); reflexivity|].
  apply Hinside;
    first [exact one_hundredth_in_unit_interval | exact half_in_unit_interval
          | simpl; lia].
Defined.

Lemma crop_hands_over_the_planned_rectangle_witness :
  planned_rectangle 1000 500 (true, (500, 250), 500) = (250, 0, 750, 500).
Proof.
  apply (proj1 (proj2 (crop_hands_over_the_planned_rectangle
                         (H := pillow) identity_handler 200 200 [])));
    vm_compute; discriminate.
Defined.

End CropExamples.

(** * Further properties

    Properties of the builder, of the pipeline of built-in processors and
    of the driver beyond the claims above. *)

(** ** The builder and the registry of the module *)

Section BuilderLaws.
Context `{Pillow}.

Lemma wrap_spec P handler part :
  wrap P handler part = (fn ← getitem P (spec_name part); fn handler (spec_args part)).
Proof. by destruct part. Qed.

Lemma getitem_PROCESSORS (name : string) :
  getitem PROCESSORS name =
    if decide (name = "crop") then Ok crop
    else if decide (name = "thumbnail") then Ok thumbnail
    else if decide (name = "preserve_icc_profile") then Ok preserve_icc_profile
    else if decide (name = "preprocess_gif") then Ok preprocess_gif
    else if decide (name = "preprocess_jpeg") then Ok preprocess_jpeg
    else if decide (name = "autorotate") then Ok autorotate
    else Raise (KeyError name).
Proof.
  unfold getitem, PROCESSORS, register; simpl.
  repeat case_decide; subst; simplify_map_eq; done.
Qed.

(** An invariant of handlers that the factory of every entry of the list
    carries from the handler it wraps to the processor it returns holds of
    the handler the loop builds. *)
Lemma build_handler_loop_invariant (P : gmap string Factory) (Q : Handler -> Prop)
    (processors : list ProcessorSpec) :
  (forall part fn get_image processor,
      part ∈ processors ->
      getitem P (spec_name part) = Ok fn ->
      fn get_image (spec_args part) = Ok processor ->
      Q get_image -> Q processor) ->
  forall handler handler',
    Q handler -> build_handler_loop P handler processors = Ok handler' -> Q handler'.
Proof.
  induction processors as [|part rest IH]; intros Hstep handler handler' HQ.
  - by intros [= <-].
  - rewrite build_handler_loop_cons, wrap_spec.
    destruct (getitem P (spec_name part)) as [fn|] eqn:Hfn; simpl; [|discriminate].
    destruct (fn handler (spec_args part)) as [processor|] eqn:Hp; simpl; [|discriminate].
    apply IH.
    + intros part' fn' g p Hin. apply Hstep. by apply list_elem_of_further.
    + eapply Hstep; [apply list_elem_of_here|done..].
Qed.

End BuilderLaws.

Section BuilderTheorems.
Context `{Pillow}.

Lemma wrap_builtin (handler : Handler) (part : ProcessorSpec) :
  (buildable part /\ exists handler', wrap PROCESSORS handler part = Ok handler')
  \/ (~ buildable part
      /\ wrap PROCESSORS handler part =
           Raise (if decide (spec_name part = "crop") then IndexError
                  else KeyError (spec_name part))).
Proof.
  rewrite wrap_spec, getitem_PROCESSORS. unfold buildable.
  unfold processor_names.
  repeat case_decide; simpl.
  - destruct (spec_args part) as [|[w h] rest] eqn:Ea; simpl.
    + right. split; [intros [_ Hargs]; by apply Hargs|reflexivity].
    + left. split; [|eauto]. split; [set_solver|done].
  - left. split; [|eauto]. split; [set_solver|done].
  - left. split; [|eauto]. split; [set_solver|done].
  - left. split; [|eauto]. split; [set_solver|done].
  - left. split; [|eauto]. split; [set_solver|done].
  - left. split; [|eauto]. split; [set_solver|done].
  - right. split; [|reflexivity]. intros [Hin _].
    apply list_elem_of_In in Hin. simpl in Hin. intuition congruence.
Qed.

Lemma build_handler_loop_builtin (processors : list ProcessorSpec) (handler : Handler) :
  (exists handler', build_handler_loop PROCESSORS handler processors = Ok handler')
  <-> Forall buildable processors.
Proof.
  revert handler. induction processors as [|part rest IH]; intros handler.
  - split; [constructor|]. intros _. by exists handler.
  - rewrite build_handler_loop_cons, Forall_cons.
    destruct (wrap_builtin handler part) as [[Hb [h' ->]]|[Hb ->]]; simpl.
    + rewrite IH. tauto.
    + split; [intros [h' Hh']; discriminate|tauto].
Qed.

(** X2: with the registry of the module and a list whose arguments are
    pairs of ints, [build_handler] returns a handler exactly when every
    entry names one of the six registered processors and every entry of
    [crop] carries at least one argument; the arguments of the other
    entries are not looked at when the handler is built.  (An argument of
    [crop] that is not a pair makes the unpacking in the source raise
    [ValueError] or [TypeError] at that point; [Args] holds no such
    argument.) *)
Theorem build_handler_builds_iff (processors : list ProcessorSpec) :
  (exists handler, build_handler PROCESSORS processors = Ok handler)
  <-> Forall buildable processors.
Proof. apply build_handler_loop_builtin. Qed.

(** X1: the loop of [build_handler] nests the entries in list order.  The
    handler of [before ++ after] is the loop run over [after] from the
    handler of [before]; in particular the handler of a list with one more
    entry at its end is the factory of that entry applied to the handler
    of the list before it and to the arguments of the entry, so the last
    entry is the outermost processor and the first one the innermost.  A
    failure to build [before] is the failure of the whole list. *)
Theorem build_handler_nests_entries (P : gmap string Factory)
    (before after : list ProcessorSpec) (part : ProcessorSpec) :
  build_handler P (before ++ after) =
    (inner ← build_handler P before; build_handler_loop P inner after)
  /\ build_handler P (before ++ [part]) =
       (inner ← build_handler P before;
        fn ← getitem P (spec_name part);
        fn inner (spec_args part)).
Proof.
  split.
  - apply build_handler_loop_app.
  - rewrite build_handler_snoc.
    destruct (build_handler P before) as [inner|e]; simpl; [|reflexivity].
    apply wrap_spec.
Qed.

(** X3: the error of a list that does not build.  When the entries before
    it build, an entry with a name that is not registered makes
    [build_handler] raise the [KeyError] of that name, and an entry of
    [crop] without arguments makes it raise [IndexError], whatever follows
    in the list. *)
Theorem build_handler_first_failure (before after : list ProcessorSpec)
    (part : ProcessorSpec) :
  Forall buildable before ->
  (spec_name part ∉ processor_names ->
     build_handler PROCESSORS (before ++ part :: after) =
       Raise (KeyError (spec_name part)))
  /\ (spec_name part = "crop" -> spec_args part = [] ->
     build_handler PROCESSORS (before ++ part :: after) = Raise IndexError).
Proof.
  intros Hbefore.
  destruct (proj2 (build_handler_loop_builtin before identity_handler) Hbefore)
    as [inner Hinner].
  assert (Hstep : build_handler PROCESSORS (before ++ part :: after) =
                    (handler ← wrap PROCESSORS inner part;
                     build_handler_loop PROCESSORS handler after)).
  { unfold build_handler in *.
    rewrite build_handler_loop_app, Hinner. apply build_handler_loop_cons. }
  rewrite Hstep.
  destruct (wrap_builtin inner part) as [[[Hin Hargs] _]|[_ ->]]; simpl.
  - split; [done|]. intros Hcrop Hnil. by destruct (Hargs Hcrop).
  - split.
    + intros Hnot. case_decide as Hc; [|reflexivity].
      exfalso. apply Hnot. rewrite Hc. unfold processor_names. set_solver.
    + intros Hcrop _. by case_decide.
Qed.

End BuilderTheorems.

Section PipelineContext.
Context `{Pillow}.

Lemma sets_save_options_refl (context : Context_) : sets_save_options context context.
Proof. repeat split; auto. Qed.

Lemma sets_save_options_trans (c1 c2 c3 : Context_) :
  sets_save_options c1 c2 -> sets_save_options c2 c3 -> sets_save_options c1 c3.
Proof.
  intros (Hp1 & Hk1 & Hs1) (Hp2 & Hk2 & Hs2). repeat split.
  - congruence.
  - intros k Hk. rewrite Hk2, Hk1; done.
  - auto.
Qed.

Lemma sets_save_options_set (context : Context_) (k : string) (v : pyval) :
  k ∈ save_options -> sets_save_options context (set_save_kwarg context k v).
Proof.
  intros Hk. repeat split; simpl.
  - intros k' Hk'. apply lookup_insert_ne. by intros ->.
  - intros k' Hsome. destruct (decide (k = k')) as [->|Hne].
    + rewrite lookup_insert_eq. eauto.
    + by rewrite lookup_insert_ne.
Qed.

(** Each factory turns a handler that keeps the context into one that
    does. *)
Lemma factory_keeps_context (name : string) (fn : Factory) (get_image processor : Handler)
    (args : Args) :
  getitem PROCESSORS name = Ok fn ->
  fn get_image args = Ok processor ->
  keeps_context get_image -> keeps_context processor.
Proof.
  rewrite getitem_PROCESSORS. intros Hfn Hp Hg image context image' context'.
  repeat case_decide; try discriminate; injection Hfn as <-.
  - (* crop *)
    unfold crop in Hp. destruct (args_0 args) as [[width height]|]; [|discriminate].
    injection Hp as <-.
    destruct (crop_boundaries _ _ _ _); simpl; [|discriminate].
    destruct (Image_crop _ _); simpl; [|discriminate].
    destruct (Image_resize _ _ _); simpl; [|discriminate].
    apply Hg.
  - (* thumbnail *)
    injection Hp as <-.
    destruct (Image_copy _); simpl; [|discriminate].
    destruct (args_0 args); simpl; [|discriminate].
    destruct (Image_thumbnail _ _ _); simpl; [|discriminate].
    apply Hg.
  - (* preserve_icc_profile *)
    injection Hp as <-. intros Hr. apply Hg in Hr.
    eapply sets_save_options_trans; [|exact Hr].
    apply sets_save_options_set. unfold save_options. set_solver.
  - (* preprocess_gif *)
    injection Hp as <-. case_decide; [|apply Hg].
    destruct (get_image _ _) as [[image1 context1]|] eqn:Hr; simpl; [|discriminate].
    destruct (Image_putpalette _ _); simpl; [|discriminate].
    intros [= <- <-]. apply Hg in Hr.
    eapply sets_save_options_trans; [|exact Hr].
    destruct (Image_info image !! "transparency").
    + apply sets_save_options_set. unfold save_options. set_solver.
    + apply sets_save_options_refl.
  - (* preprocess_jpeg *)
    injection Hp as <-. case_decide; [|apply Hg].
    destruct (if decide _ then _ else _); simpl; [|discriminate].
    intros Hr. apply Hg in Hr.
    eapply sets_save_options_trans; [|exact Hr].
    eapply sets_save_options_trans;
      apply sets_save_options_set; unfold save_options; set_solver.
  - (* autorotate *)
    injection Hp as <-.
    destruct (Image_has_getexif image); simpl; [|apply Hg].
    destruct (Image_getexif image) as [[exif|]|]; simpl; [|apply Hg|discriminate].
    case_decide; [apply Hg|].
    destruct (_ ≫= _) as [rotation|]; [|apply Hg].
    case_decide; [|apply Hg].
    destruct (Image_transpose _ _); simpl; [|discriminate].
    apply Hg.
Qed.

(** X4: a handler built from the registry of the module changes the
    context only by setting save options.  The point of interest comes
    back as it went in; every key of [save_kwargs] other than [quality],
    [progressive], [transparency] and [icc_profile] keeps its value or its
    absence; no key is removed; so from the empty [save_kwargs] that
    [process_image] starts with, the keyword arguments that reach
    [image.save] are among those four. *)
Theorem pipeline_sets_only_save_options (processors : list ProcessorSpec)
    (handler : Handler) (image image' : Image) (context context' : Context_) :
  build_handler PROCESSORS processors = Ok handler ->
  handler image context = Ok (image', context') ->
  ppoi context' = ppoi context
  /\ (forall k, k ∉ save_options -> save_kwargs context' !! k = save_kwargs context !! k)
  /\ (forall k, is_Some (save_kwargs context !! k) -> is_Some (save_kwargs context' !! k))
  /\ (save_kwargs context = ∅ ->
      forall k, is_Some (save_kwargs context' !! k) -> k ∈ save_options).
Proof.
  intros Hb Hr.
  assert (Hk : keeps_context handler).
  { eapply (build_handler_loop_invariant PROCESSORS keeps_context); [| |exact Hb].
    - intros part fn g p _ Hfn Hp. by eapply factory_keeps_context.
    - intros i c i' c' [= <- <-]. apply sets_save_options_refl. }
  destruct (Hk _ _ _ _ Hr) as (Hp & Hother & Hsome).
  repeat split; try done.
  intros Hempty k Hset. destruct (decide (k ∈ save_options)) as [|Hnot]; [done|].
  rewrite (Hother k Hnot), Hempty, lookup_empty in Hset. by destruct Hset.
Qed.

End PipelineContext.

Section Delegation.
Context `{Pillow}.

(** What a built-in processor returns, the handler it wraps returned:
    the context as it is, and the image as it is or, for
    [preprocess_gif], with the palette put back. *)
Lemma factory_result_from_next (name : string) (fn : Factory)
    (get_image processor : Handler) (args : Args)
    (image image' : Image) (context context' : Context_) :
  getitem PROCESSORS name = Ok fn ->
  fn get_image args = Ok processor ->
  processor image context = Ok (image', context') ->
  exists image1 context1 image2,
    get_image image1 context1 = Ok (image2, context')
    /\ (image' = image2
        \/ (name = "preprocess_gif"
            /\ Image_putpalette image2 (Image_getpalette image) = Ok image')).
Proof.
  rewrite getitem_PROCESSORS. intros Hfn Hp.
  repeat case_decide; try discriminate; injection Hfn as <-.
  - unfold crop in Hp. destruct (args_0 args) as [[width height]|]; [|discriminate].
    injection Hp as <-.
    destruct (crop_boundaries _ _ _ _); simpl; [|discriminate].
    destruct (Image_crop _ _); simpl; [|discriminate].
    destruct (Image_resize _ _ _); simpl; [|discriminate].
    eauto 6.
  - injection Hp as <-.
    destruct (Image_copy _); simpl; [|discriminate].
    destruct (args_0 args); simpl; [|discriminate].
    destruct (Image_thumbnail _ _ _); simpl; [|discriminate].
    eauto 6.
  - injection Hp as <-. eauto 6.
  - injection Hp as <-. case_decide; [|eauto 6].
    destruct (get_image _ _) as [[image1 context1]|] eqn:Hr; simpl; [|discriminate].
    destruct (Image_putpalette _ _) eqn:Hput; simpl; [|discriminate].
    intros [= <- <-]. eauto 8.
  - injection Hp as <-. case_decide; [|eauto 6].
    destruct (if decide _ then _ else _); simpl; [|discriminate].
    eauto 6.
  - injection Hp as <-.
    destruct (Image_has_getexif image); simpl; [|eauto 6].
    destruct (Image_getexif image) as [[exif|]|]; simpl; [|eauto 6|discriminate].
    case_decide; [eauto 6|].
    destruct (_ ≫= _) as [rotation|]; [|eauto 6].
    case_decide; [|eauto 6].
    destruct (Image_transpose _ _); simpl; [|discriminate].
    eauto 6.
Qed.

End Delegation.

(** ** The built-in processors in a pipeline *)

Section ProcessorTheorems.
Context `{Pillow}.

(** X5: every built-in processor delegates.  Whatever a handler built by
    the loop from the registry of the module around a handler [inner]
    returns, its context is one that [inner] returned: no processor
    returns without having called the handler it wraps, and none replaces
    the context that handler returned.  A pipeline around a handler that
    always raises never returns. *)
Theorem pipeline_returns_what_the_innermost_returned
    (processors : list ProcessorSpec) (inner handler : Handler)
    (image image' : Image) (context context' : Context_) :
  build_handler_loop PROCESSORS inner processors = Ok handler ->
  handler image context = Ok (image', context') ->
  exists image0 context0 image1, inner image0 context0 = Ok (image1, context').
Proof.
  intros Hb. revert image image' context context'.
  apply (build_handler_loop_invariant PROCESSORS
           (fun h => forall image image' context context',
              h image context = Ok (image', context') ->
              exists image0 context0 image1, inner image0 context0 = Ok (image1, context'))
           processors) with (handler := inner); [| |exact Hb].
  - intros part fn get_image processor _ Hfn Hp IH image image' context context' Hr.
    destruct (factory_result_from_next _ _ _ _ _ _ _ _ _ Hfn Hp Hr)
      as (image1 & context1 & image2 & Hnext & _).
    eapply IH, Hnext.
  - eauto.
Qed.

(** X6: [preprocess_jpeg], Pillow's [convert] returning an image of the
    mode it is asked for.  On a JPEG the next handler is called with an
    image in mode RGB (the image itself when it is RGB already, the
    converted one otherwise) and with [quality] set to 90 and [progressive]
    to true over whatever the context held, the other keys and the point of
    interest as they were; when the conversion raises, that error is raised
    and the next handler is not called.  Any other image goes to the next
    handler with the context as it is. *)
Theorem preprocess_jpeg_hands_on_rgb (get_image : Handler) (args : Args)
    (convert_gives_mode : forall image mode image',
        Image_convert image mode = Ok image' -> Image_mode image' = mode) :
  exists processor,
    preprocess_jpeg get_image args = Ok processor
    /\ forall image context,
        (Image_format image = Some "JPEG" ->
           (exists image1,
               processor image context =
                 get_image image1
                   {| ppoi := ppoi context;
                      save_kwargs := <["progressive" := VBool true]>
                                       (<["quality" := VInt 90]> (save_kwargs context)) |}
               /\ Image_mode image1 = "RGB"
               /\ (if decide (Image_mode image = "RGB") then image1 = image
                   else Image_convert image "RGB" = Ok image1))
           \/ (exists e,
                 Image_mode image <> "RGB"
                 /\ Image_convert image "RGB" = Raise e
                 /\ processor image context = Raise e))
        /\ (Image_format image <> Some "JPEG" ->
            processor image context = get_image image context).
Proof.
  eexists; split; [reflexivity|]. intros image context. split.
  - intros Hjpeg. simpl. rewrite decide_True by done.
    destruct (decide (Image_mode image ≠ "RGB")) as [Hmode|Hmode].
    + destruct (Image_convert image "RGB") as [image1|e] eqn:Hc; simpl.
      * left. exists image1. split; [reflexivity|].
        split; [by eapply convert_gives_mode|]. by rewrite decide_False.
      * right. by exists e.
    + apply dec_stable in Hmode. left. exists image.
      split; [reflexivity|]. split; [done|]. by rewrite decide_True.
  - intros Hnot. simpl. by rewrite decide_False.
Qed.

Lemma never_returns_wrapped (processors : list ProcessorSpec) (inner handler : Handler) :
  (forall image context r, inner image context <> Ok r) ->
  build_handler_loop PROCESSORS inner processors = Ok handler ->
  forall image context r, handler image context <> Ok r.
Proof.
  intros Hinner.
  apply (build_handler_loop_invariant PROCESSORS
           (fun h => forall image context r, h image context <> Ok r)); [|exact Hinner].
  intros part fn get_image processor _ Hfn Hp IH image context [image' context'] Hr.
  destruct (factory_result_from_next _ _ _ _ _ _ _ _ _ Hfn Hp Hr)
    as (image1 & context1 & image2 & Hnext & _).
  by eapply IH.
Qed.

(** X7: an entry of [thumbnail] without a size is accepted when the
    handler is built and fails when it runs.  With buildable entries
    before and after it, [build_handler] returns a handler, and that
    handler raises on every image and context: the size is read only
    inside the processor, after the copy is taken. *)
Theorem thumbnail_without_size_builds_and_never_returns
    (before after : list ProcessorSpec) (part : ProcessorSpec) :
  spec_name part = "thumbnail" -> spec_args part = [] ->
  Forall buildable before -> Forall buildable after ->
  exists handler,
    build_handler PROCESSORS (before ++ part :: after) = Ok handler
    /\ forall image context, exists e, handler image context = Raise e.
Proof.
  intros Hname Hargs Hbefore Hafter.
  destruct (proj2 (build_handler_loop_builtin before identity_handler) Hbefore)
    as [inner Hinner].
  assert (Hw : exists processor,
             wrap PROCESSORS inner part = Ok processor
             /\ forall image context r, processor image context <> Ok r).
  { rewrite wrap_spec, Hname, Hargs, getitem_PROCESSORS. simpl.
    eexists; split; [reflexivity|]. intros image context r.
    simpl. destruct (Image_copy image); simpl; discriminate. }
  destruct Hw as (processor & Hw & Hnever).
  destruct (proj2 (build_handler_loop_builtin after processor) Hafter) as [handler Hhandler].
  exists handler. split.
  - unfold build_handler.
    rewrite build_handler_loop_app, Hinner. simpl.
    change (build_handler_loop PROCESSORS inner (part :: after) = Ok handler).
    by rewrite build_handler_loop_cons, Hw.
  - intros image context.
    pose proof (never_returns_wrapped _ _ _ Hnever Hhandler image context) as Hno.
    destruct (handler image context) as [r|e]; [by destruct (Hno r)|eauto].
Qed.

(** Every factory but [preserve_icc_profile] leaves that key alone. *)
Lemma factory_keeps_icc_profile (name : string) (fn : Factory)
    (get_image processor : Handler) (args : Args) :
  name <> "preserve_icc_profile" ->
  getitem PROCESSORS name = Ok fn ->
  fn get_image args = Ok processor ->
  keeps_icc_profile get_image -> keeps_icc_profile processor.
Proof.
  rewrite getitem_PROCESSORS. intros Hname Hfn Hp Hg image context image' context'.
  repeat case_decide; try discriminate; try done; injection Hfn as <-.
  - unfold crop in Hp. destruct (args_0 args) as [[width height]|]; [|discriminate].
    injection Hp as <-.
    destruct (crop_boundaries _ _ _ _); simpl; [|discriminate].
    destruct (Image_crop _ _); simpl; [|discriminate].
    destruct (Image_resize _ _ _); simpl; [|discriminate].
    apply Hg.
  - injection Hp as <-.
    destruct (Image_copy _); simpl; [|discriminate].
    destruct (args_0 args); simpl; [|discriminate].
    destruct (Image_thumbnail _ _ _); simpl; [|discriminate].
    apply Hg.
  - injection Hp as <-. case_decide; [|apply Hg].
    destruct (get_image _ _) as [[image1 context1]|] eqn:Hr; simpl; [|discriminate].
    destruct (Image_putpalette _ _); simpl; [|discriminate].
    intros [= <- <-]. apply Hg in Hr. rewrite Hr.
    destruct (Image_info image !! "transparency"); simpl; [|done].
    by rewrite lookup_insert_ne.
  - injection Hp as <-. case_decide; [|apply Hg].
    destruct (if decide _ then _ else _); simpl; [|discriminate].
    intros Hr. apply Hg in Hr. rewrite Hr. simpl.
    by rewrite !lookup_insert_ne.
  - injection Hp as <-.
    destruct (Image_has_getexif image); simpl; [|apply Hg].
    destruct (Image_getexif image) as [[exif|]|]; simpl; [|apply Hg|discriminate].
    case_decide; [apply Hg|].
    destruct (_ ≫= _) as [rotation|]; [|apply Hg].
    case_decide; [|apply Hg].
    destruct (Image_transpose _ _); simpl; [|discriminate].
    apply Hg.
Qed.

(** X8: with the default [always] entries in front of the list, as
    [process_image] puts them, the handler is built around [keeper], the
    processor [preserve_icc_profile] made around the handler of the three
    entries before it.  Every result of [keeper] carries in [save_kwargs]
    the key [icc_profile] with the value of [icc_profile] in the [info] of
    the image [keeper] was called with, [None] when that image has none;
    every result of the handler is a context [keeper] returned, so it
    carries the profile of the image [preserve_icc_profile] received; and
    with no further entries that image is the one given to the handler. *)
Theorem default_pipeline_passes_icc_profile (processors : list ProcessorSpec)
    (handler : Handler) (image image' : Image) (context context' : Context_) :
  build_handler PROCESSORS (always_default ++ processors) = Ok handler ->
  handler image context = Ok (image', context') ->
  exists inner keeper,
    build_handler PROCESSORS
      [Bare "autorotate"; Bare "preprocess_jpeg"; Bare "preprocess_gif"] = Ok inner
    /\ preserve_icc_profile inner [] = Ok keeper
    /\ build_handler_loop PROCESSORS keeper processors = Ok handler
    /\ (forall received context0 image1 context1,
          keeper received context0 = Ok (image1, context1) ->
          save_kwargs context1 !! "icc_profile" =
            Some (dict_get (Image_info received) "icc_profile"))
    /\ (exists received context0 image1,
          keeper received context0 = Ok (image1, context')
          /\ save_kwargs context' !! "icc_profile" =
               Some (dict_get (Image_info received) "icc_profile"))
    /\ (processors = [] ->
          save_kwargs context' !! "icc_profile" =
            Some (dict_get (Image_info image) "icc_profile")).
Proof.
  intros Hb Hr. unfold build_handler in *.
  change always_default with
    ([Bare "autorotate"; Bare "preprocess_jpeg"; Bare "preprocess_gif"]
       ++ [Bare "preserve_icc_profile"]) in Hb.
  rewrite !build_handler_loop_app in Hb.
  destruct (build_handler_loop PROCESSORS identity_handler
              [Bare "autorotate"; Bare "preprocess_jpeg"; Bare "preprocess_gif"])
    as [inner|] eqn:Hinner; [|discriminate].
  assert (Hkeeps : keeps_icc_profile inner).
  { eapply (build_handler_loop_invariant PROCESSORS keeps_icc_profile); [| |exact Hinner].
    - intros part fn g p Hin Hfn Hp. eapply factory_keeps_icc_profile; [|done..].
      apply list_elem_of_In in Hin. simpl in Hin.
      destruct Hin as [<-|[<-|[<-|[]]]]; done.
    - by intros i c i' c' [= <- <-]. }
  simpl in Hb.
  set (keeper := fun image context =>
         inner image
           (set_save_kwarg context "icc_profile"
              (dict_get (Image_info image) "icc_profile"))) in *.
  assert (Hprofile : forall received context0 image1 context1,
             keeper received context0 = Ok (image1, context1) ->
             save_kwargs context1 !! "icc_profile" =
               Some (dict_get (Image_info received) "icc_profile")).
  { intros received context0 image1 context1 Hk. apply Hkeeps in Hk.
    rewrite Hk. simpl. apply lookup_insert_eq. }
  assert (Hfrom : exists received context0 image1,
             keeper received context0 = Ok (image1, context')).
  { revert image image' context context' Hr.
    eapply (build_handler_loop_invariant PROCESSORS
              (fun h => forall image image' context context',
                 h image context = Ok (image', context') ->
                 exists received context0 image1,
                   keeper received context0 = Ok (image1, context')));
      [| |exact Hb].
    - intros part fn g p _ Hfn Hp IH image image' context context' Hr.
      destruct (factory_result_from_next _ _ _ _ _ _ _ _ _ Hfn Hp Hr)
        as (image1 & context1 & image2 & Hnext & _).
      eapply IH, Hnext.
    - eauto. }
  exists inner, keeper.
  split; [reflexivity|]. split; [reflexivity|]. split; [exact Hb|].
  split; [exact Hprofile|]. split.
  - destruct Hfrom as (received & context0 & image1 & Hk).
    exists received, context0, image1. split; [exact Hk|]. by eapply Hprofile.
  - intros ->. injection Hb as <-. by eapply Hprofile.
Qed.

End ProcessorTheorems.

(** ** The calls of the driver *)

Section DriverTheorems.
Context `{Pillow} `{Storage}.

Ltac unfold_driver :=
  unfold process_image, mbind, M_bind, mret, M_ret, call, call_mut, record_call;
  simpl.

(** X9: the render that goes through.  When the render does not return at
    once and reading, decoding, building, running the handler and encoding
    succeed, the image the handler returned is encoded in the format of
    the source as decoded, with the [save_kwargs] the handler returned;
    then [storage.delete] is called on the target and, unless it raised,
    [storage.save] with the target and that buffer.  The calls are, in
    this order: the existence check unless [force] is on, the open of the
    source, [Image.open], the build, the handler, [image.save], the delete
    and the save.  An error of the delete or of the save is raised, and
    the storage stays as that call left it: the delete is not undone when
    the save fails. *)
Theorem process_image_renders_then_replaces
    (P : gmap string Factory) (file : FieldFile) (target : string)
    (processors : list ProcessorSpec) (ppoi : float * float) (force : bool)
    (always : list ProcessorSpec) (w : World)
    (orig : bytes) (image image' : Image) (handler : Handler) (context' : Context_)
    (buf : bytes) :
  proceeds force w target ->
  storage_open (storage w) (file_name file) = Ok orig ->
  Image_open orig = Ok image ->
  build_handler P (always ++ processors) = Ok handler ->
  handler image {| ppoi := ppoi; save_kwargs := ∅ |} = Ok (image', context') ->
  Image_save image' (Image_format image) (save_kwargs context') = Ok buf ->
  process_image P file target processors ppoi force always w =
    let '(deleted, st1) := storage_delete (storage w) target in
    match deleted with
    | Raise e =>
        (Raise e,
         {| storage := st1;
            calls := calls w ++ check_calls force target
                       ++ [Call_file_open (file_name file); Call_Image_open;
                           Call_build_handler; Call_handler; Call_image_save;
                           Call_storage_delete target] |})
    | Ok _ =>
        let '(saved, st2) := storage_save st1 target buf in
        (match saved with Ok _ => Ok tt | Raise e => Raise e end,
         {| storage := st2;
            calls := calls w ++ check_calls force target
                       ++ render_calls file target buf |})
    end.
Proof.
  intros Hgo Hopen Hdecode Hbuild Hrun Hsave. unfold_driver.
  assert (Hex : force = false -> storage_exists (storage w) target = Ok false).
  { intros ->. by destruct Hgo. }
  destruct force; simpl; [|rewrite (Hex eq_refl); simpl];
    rewrite Hopen; simpl; rewrite Hdecode; simpl; rewrite Hbuild; simpl;
    rewrite Hrun; simpl; rewrite Hsave; simpl;
    (destruct (storage_delete (storage w) target) as [[u|e] st1]; simpl;
     [destruct (storage_save st1 target buf) as [[name|e] st2]; simpl|]);
    rewrite <- ?app_assoc; reflexivity.
Qed.

(** X10: [force] only skips the existence check.  With [force] off,
    [process_image] asks the storage whether the target exists; when the
    answer is yes it returns, when the question raises it raises that
    error, in both cases with nothing else called, and when the answer is
    no it goes on exactly as the render with [force] on does after that
    call. *)
Theorem process_image_without_force
    (P : gmap string Factory) (file : FieldFile) (target : string)
    (processors : list ProcessorSpec) (ppoi : float * float)
    (always : list ProcessorSpec) (w : World) :
  process_image P file target processors ppoi false always w =
    match storage_exists (storage w) target with
    | Ok true => (Ok tt, record_call (Call_storage_exists target) w)
    | Ok false =>
        process_image P file target processors ppoi true always
          (record_call (Call_storage_exists target) w)
    | Raise e => (Raise e, record_call (Call_storage_exists target) w)
    end.
Proof.
  unfold_driver.
  destruct (storage_exists (storage w) target) as [[|]|e]; reflexivity.
Qed.

Ltac close_path cs buf :=
  do 2 eexists; exists cs, buf;
  split; [reflexivity|];
  split; [simpl; rewrite <- ?app_assoc; reflexivity|];
  split; [eexists; reflexivity|];
  split; [first [ by intros _
                | intros Hnot; exfalso; apply Hnot;
                  apply list_elem_of_In; simpl; tauto ]|];
  first [ discriminate | intros _; auto ].

Ltac walk_render file target :=
  destruct (storage_open _ _) as [orig|?]; simpl;
    [|close_path [Call_file_open (file_name file)] (@nil byte)];
  destruct (Image_open orig) as [image|?]; simpl;
    [|close_path [Call_file_open (file_name file); Call_Image_open] (@nil byte)];
  destruct (build_handler _ _) as [handler|?]; simpl;
    [|close_path [Call_file_open (file_name file); Call_Image_open;
                  Call_build_handler] (@nil byte)];
  destruct (handler image _) as [[image' context']|?]; simpl;
    [|close_path [Call_file_open (file_name file); Call_Image_open;
                  Call_build_handler; Call_handler] (@nil byte)];
  destruct (Image_save _ _ _) as [buf|?]; simpl;
    [|close_path [Call_file_open (file_name file); Call_Image_open;
                  Call_build_handler; Call_handler; Call_image_save] (@nil byte)];
  destruct (storage_delete _ _) as [[u|?] st1]; simpl;
    [|close_path [Call_file_open (file_name file); Call_Image_open;
                  Call_build_handler; Call_handler; Call_image_save;
                  Call_storage_delete target] buf];
  destruct (storage_save st1 _ _) as [[name|?] st2]; simpl;
    close_path (render_calls file target buf) buf.

(** X11: the order of the calls of [process_image], on every run.  After
    the existence check (made unless [force] is on) the calls are an
    initial part of: open of the source, [Image.open], build, handler,
    [image.save], [storage.delete] of the target, [storage.save] of the
    target.  So each call is made at most once, nothing is deleted before
    the encoding has succeeded, nothing is saved before the delete, the
    delete and the save are only ever made on the target, and the storage
    is as before unless the delete was reached.  The render returns
    normally only after all of them, or, with [force] off, after the
    existence check alone. *)
Theorem process_image_call_order
    (P : gmap string Factory) (file : FieldFile) (target : string)
    (processors : list ProcessorSpec) (ppoi : float * float) (force : bool)
    (always : list ProcessorSpec) (w : World) :
  exists r w' cs buf,
    process_image P file target processors ppoi force always w = (r, w')
    /\ calls w' = calls w ++ check_calls force target ++ cs
    /\ cs `prefix_of` render_calls file target buf
    /\ (Call_storage_delete target ∉ cs -> storage w' = storage w)
    /\ (r = Ok tt ->
        (force = false /\ cs = []) \/ cs = render_calls file target buf).
Proof.
  unfold render_calls, check_calls. unfold_driver.
  destruct force; simpl.
  - walk_render file target.
  - destruct (storage_exists _ _) as [[|]|?]; simpl.
    + close_path (@nil Call) (@nil byte).
    + walk_render file target.
    + close_path (@nil Call) (@nil byte).
Qed.

Ltac walk_success Hlaw :=
  destruct (storage_open _ _) as [orig|?]; simpl; [|intros [=]];
  destruct (Image_open orig) as [image|?]; simpl; [|intros [=]];
  destruct (build_handler _ _) as [handler|?]; simpl; [|intros [=]];
  destruct (handler image _) as [[image' context']|?]; simpl; [|intros [=]];
  destruct (Image_save _ _ _) as [buf|?]; simpl; [|intros [=]];
  destruct (storage_delete _ _) as [[u|?] st1]; simpl; [|intros [=]];
  destruct (storage_save st1 _ _) as [[name|?] st2] eqn:Hsaved; simpl; [|intros [=]];
  intros [= <-]; simpl; eapply Hlaw, Hsaved.

(** X12: rendering again is a no-op, for a storage in which a name exists
    once it has been saved.  After a render that returned normally, with
    or without [force], a render of the same target with [force] off,
    whatever its source, processors and point of interest, only asks the
    storage whether the target exists and returns, the storage as it
    was. *)
Theorem process_image_second_render_returns_at_once
    (exists_after_save : forall st name content saved st',
        storage_save st name content = (Ok saved, st') ->
        storage_exists st' name = Ok true)
    (P P' : gmap string Factory) (file file' : FieldFile) (target : string)
    (processors processors' : list ProcessorSpec) (ppoi ppoi' : float * float)
    (force : bool) (always always' : list ProcessorSpec) (w w1 : World) :
  process_image P file target processors ppoi force always w = (Ok tt, w1) ->
  process_image P' file' target processors' ppoi' false always' w1 =
    (Ok tt, {| storage := storage w1;
               calls := calls w1 ++ [Call_storage_exists target] |}).
Proof.
  intros Hfirst.
  assert (Hex : storage_exists (storage w1) target = Ok true).
  { revert Hfirst. unfold_driver. destruct force; simpl.
    - walk_success exists_after_save.
    - destruct (storage_exists (storage w) target) as [[|]|?] eqn:Hex; simpl.
      + by intros [= <-].
      + walk_success exists_after_save.
      + intros [=]. }
  unfold_driver. by rewrite Hex.
Qed.

End DriverTheorems.

(** ** The further properties on concrete inputs *)

Section PipelineExamples.
Import Reference.

(** The default [always] entries all build. *)
Lemma always_default_buildable : Forall buildable always_default.
Proof.
  repeat constructor; try discriminate;
    apply list_elem_of_In; simpl; tauto.
Qed.

Lemma build_handler_first_failure_witness :
  Forall buildable always_default
  /\ build_handler (H := pillow) PROCESSORS
       (always_default ++ Bare "sharpen" :: [WithArgs "crop" [(200, 200)]])
     = Raise (KeyError "sharpen")
  /\ build_handler (H := pillow) PROCESSORS (always_default ++ Bare "crop" :: [])
     = Raise IndexError.
Proof.
  split; [exact always_default_buildable|]. split.
  - apply (proj1 (build_handler_first_failure (H := pillow) always_default
                    [WithArgs "crop" [(200, 200)]] (Bare "sharpen")
                    always_default_buildable)).
    intros Hin. apply list_elem_of_In in Hin. simpl in Hin. intuition discriminate.
  - apply (proj2 (build_handler_first_failure (H := pillow) always_default
                    [] (Bare "crop") always_default_buildable)); reflexivity.
Defined.

Lemma pipeline_sets_only_save_options_witness :
  exists handler image' context',
    build_handler (H := pillow) PROCESSORS always_default = Ok handler
    /\ handler sample_image (sample_context half half) = Ok (image', context')
    /\ ppoi context' = ppoi (sample_context half half)
    /\ (forall k, k ∉ save_options ->
          save_kwargs context' !! k = save_kwargs (sample_context half half) !! k)
    /\ (forall k, is_Some (save_kwargs (sample_context half half) !! k) ->
          is_Some (save_kwargs context' !! k))
    /\ (save_kwargs (sample_context half half) = ∅ ->
        forall k, is_Some (save_kwargs context' !! k) -> k ∈ save_options).
Proof.
  do 3 eexists. split; [reflexivity|]. split; [vm_compute; reflexivity|].
  eapply (pipeline_sets_only_save_options (H := pillow) always_default)
    with (image := sample_image);
    [reflexivity | vm_compute; reflexivity].
Defined.

Lemma pipeline_returns_what_the_innermost_returned_witness :
  exists handler image' context',
    build_handler_loop (H := pillow) PROCESSORS identity_handler always_default
      = Ok handler
    /\ handler sample_image (sample_context half half) = Ok (image', context')
    /\ exists image0 context0 image1,
         identity_handler image0 context0 = Ok (image1, context').
Proof.
  do 3 eexists. split; [reflexivity|]. split; [vm_compute; reflexivity|].
  eapply (pipeline_returns_what_the_innermost_returned (H := pillow) always_default
            identity_handler)
    with (image := sample_image) (context := sample_context half half);
    [reflexivity | vm_compute; reflexivity].
Defined.

Lemma preprocess_jpeg_hands_on_rgb_witness :
  (forall image mode image',
      r_convert image mode = Ok image' -> r_mode image' = mode)
  /\ exists processor image1,
      preprocess_jpeg (H := pillow) identity_handler [] = Ok processor
      /\ processor sample_image (sample_context half half) =
           identity_handler image1
             {| ppoi := (half, half);
                save_kwargs := <["progressive" := VBool true]>
                                 (<["quality" := VInt 90]> ∅) |}
      /\ Image_mode image1 = "RGB".
Proof.
  assert (Hlaw : forall image mode image',
             r_convert image mode = Ok image' -> r_mode image' = mode).
  { intros image mode image' [= <-]. reflexivity. }
  split; [exact Hlaw|].
  destruct (preprocess_jpeg_hands_on_rgb (H := pillow) identity_handler [] Hlaw)
    as (processor & Hp & Hspec).
  destruct (proj1 (Hspec sample_image (sample_context half half)) eq_refl)
    as [(image1 & Hr & Hm & _)|(e & Hne & _)].
  - exists processor, image1. auto.
  - exfalso. by apply Hne.
Defined.

Lemma thumbnail_without_size_builds_and_never_returns_witness :
  exists handler,
    build_handler (H := pillow) PROCESSORS
      (always_default ++ Bare "thumbnail" :: [WithArgs "crop" [(200, 200)]])
    = Ok handler
    /\ forall image context, exists e, handler image context = Raise e.
Proof.
  apply (thumbnail_without_size_builds_and_never_returns (H := pillow)
           always_default [WithArgs "crop" [(200, 200)]] (Bare "thumbnail"));
    [reflexivity | reflexivity | exact always_default_buildable |].
  repeat constructor; try discriminate.
Defined.

Lemma default_pipeline_passes_icc_profile_witness :
  exists handler image' context',
    build_handler (H := pillow) PROCESSORS
      (always_default ++ [WithArgs "thumbnail" [(100, 100)]]) = Ok handler
    /\ handler
         {| r_format := Some "JPEG"; r_mode := "RGB"; r_size := (1000, 500);
            r_info := {[ "icc_profile" := VBytes ["s"%byte; "R"%byte; "G"%byte; "B"%byte] ]};
            r_exif := Some None; r_palette := None; r_ops := [] |}
         (sample_context half half) = Ok (image', context')
    /\ save_kwargs context' !! "icc_profile" =
         Some (VBytes ["s"%byte; "R"%byte; "G"%byte; "B"%byte])
    /\ exists inner keeper received context0 image1,
         preserve_icc_profile inner [] = Ok keeper
         /\ keeper received context0 = Ok (image1, context')
         /\ save_kwargs context' !! "icc_profile" =
              Some (dict_get (Image_info received) "icc_profile").
Proof.
  do 3 eexists. split; [reflexivity|]. split; [vm_compute; reflexivity|].
  split; [vm_compute; reflexivity|].
  edestruct (default_pipeline_passes_icc_profile (H := pillow)
               [WithArgs "thumbnail" [(100, 100)]])
    with (image := {| r_format := Some "JPEG"; r_mode := "RGB"; r_size := (1000, 500);
                      r_info := {[ "icc_profile" :=
                                     VBytes ["s"%byte; "R"%byte; "G"%byte; "B"%byte] ]};
                      r_exif := Some None; r_palette := None; r_ops := [] |})
         (context := sample_context half half)
    as (inner & keeper & _ & Hkeeper & _ & _ & (received & context0 & image1 & Hk & Hicc) & _);
    [reflexivity | vm_compute; reflexivity |].
  exists inner, keeper, received, context0, image1. auto.
Defined.

End PipelineExamples.

Section RenderExamples.
Import Reference.

Lemma process_image_renders_then_replaces_witness :
  exists buf,
    process_image PROCESSORS {| file_name := "source.jpg" |} "small.jpg"
      [WithArgs "thumbnail" [(100, 100)]] (half, half) false always_default
      sample_world =
    let '(deleted, st1) := storage_delete (storage sample_world) "small.jpg" in
    match deleted with
    | Raise e =>
        (Raise e,
         {| storage := st1;
            calls := calls sample_world ++ check_calls false "small.jpg"
                       ++ [Call_file_open "source.jpg"; Call_Image_open;
                           Call_build_handler; Call_handler; Call_image_save;
                           Call_storage_delete "small.jpg"] |})
    | Ok _ =>
        let '(saved, st2) := storage_save st1 "small.jpg" buf in
        (match saved with Ok _ => Ok tt | Raise e => Raise e end,
         {| storage := st2;
            calls := calls sample_world ++ check_calls false "small.jpg"
                       ++ render_calls {| file_name := "source.jpg" |}
                            "small.jpg" buf |})
    end.
Proof.
  eexists.
  eapply (process_image_renders_then_replaces (H := pillow) (H0 := memory)
            PROCESSORS {| file_name := "source.jpg" |} "small.jpg"
            [WithArgs "thumbnail" [(100, 100)]] (half, half) false always_default
            sample_world).
  - right. vm_compute. reflexivity.
  - vm_compute. reflexivity.
  - vm_compute. reflexivity.
  - reflexivity.
  - vm_compute. reflexivity.
  - vm_compute. reflexivity.
Defined.

Lemma process_image_second_render_returns_at_once_witness :
  (forall (st : gmap string bytes) name content saved st',
      storage_save (Storage := memory) st name content = (Ok saved, st') ->
      storage_exists (Storage := memory) st' name = Ok true)
  /\ exists w1,
      process_image PROCESSORS {| file_name := "source.jpg" |} "small.jpg"
        [WithArgs "thumbnail" [(100, 100)]] (half, half) false always_default
        sample_world = (Ok tt, w1)
      /\ process_image PROCESSORS {| file_name := "source.jpg" |} "small.jpg"
           [WithArgs "thumbnail" [(100, 100)]] (half, half) false always_default w1
         = (Ok tt, {| storage := storage w1;
                      calls := calls w1 ++ [Call_storage_exists "small.jpg"] |}).
Proof.
  assert (Hlaw : forall (st : gmap string bytes) name content saved st',
             storage_save (Storage := memory) st name content = (Ok saved, st') ->
             storage_exists (Storage := memory) st' name = Ok true).
  { intros st name content saved st' [= <- <-]. simpl.
    rewrite lookup_insert_eq. reflexivity. }
  split; [exact Hlaw|].
  eexists. split; [vm_compute; reflexivity|].
  eapply (process_image_second_render_returns_at_once (H := pillow) (H0 := memory)
            Hlaw PROCESSORS PROCESSORS {| file_name := "source.jpg" |}
            {| file_name := "source.jpg" |} "small.jpg"
            [WithArgs "thumbnail" [(100, 100)]] [WithArgs "thumbnail" [(100, 100)]]
            (half, half) (half, half) false always_default always_default
            sample_world).
  vm_compute. reflexivity.
Defined.

End RenderExamples.

(** ** The geometry of the crop

    What the rounding of the binary64 operations gives for the rectangle:
    its aspect ratio, its position around the focus pixel, and the
    division by a height of zero. *)

(** [int] of a positive normal float is the floor of its value. *)
Lemma py_int_normal_floor (y : float) (lo hi : Z) :
  normal y lo hi ->
  exists z, py_int y = Ok z /\ 0 <= z /\ (IZR z <= F2R y < IZR z + 1)%R.
Proof.
  intros (m & e & -> & Hd & He). rewrite F2R_finite. unfold py_int.
  destruct e as [|p|p].
  - eexists; split; [reflexivity|]. split; [lia|].
    rewrite mult_IZR, pow2_0. simpl. lra.
  - eexists; split; [reflexivity|]. split; [lia|].
    rewrite mult_IZR, <- pow2_IZR by lia. lra.
  - eexists; split; [reflexivity|].
    assert (HP : 0 < 2 ^ Z.pos p) by (apply Z.pow_pos_nonneg; lia).
    split; [apply Z.div_pos; lia|].
    pose proof (Z.mul_div_le (Z.pos m) (2 ^ Z.pos p) HP) as Hdiv.
    pose proof (Z.mul_succ_div_gt (Z.pos m) (2 ^ Z.pos p) HP) as Hdiv'.
    apply IZR_le in Hdiv. apply IZR_lt in Hdiv'.
    rewrite mult_IZR, <- pow2_IZR in Hdiv by lia.
    unfold Z.succ in Hdiv'. rewrite mult_IZR, plus_IZR, <- pow2_IZR in Hdiv' by lia.
    change (Z.neg p) with (- Z.pos p). rewrite pow2_opp.
    pose proof (pow2_pos (Z.pos p)) as Hpp.
    split.
    + apply (Rmult_le_reg_r (pow2 (Z.pos p))); [done|].
      rewrite Rmult_assoc, Rinv_l by lra. lra.
    + apply (Rmult_lt_reg_r (pow2 (Z.pos p))); [done|].
      rewrite Rmult_assoc, Rinv_l by lra. lra.
Qed.

(** A positive normal float is as large as itself. *)
Lemma py_ge_refl (a : float) (lo hi : Z) : normal a lo hi -> py_ge a a = true.
Proof.
  intros Ha. pose proof (py_ge_normal a a _ _ _ _ Ha Ha) as Hge.
  destruct (py_ge a a); [done|lra].
Qed.

(** The plan of the crop: it exists, the extent along the trimmed axis is
    between 0 and the extent of the source, and within one pixel of the
    extent that gives the rectangle the aspect ratio of the target; a
    target of the size of the source trims left and right. *)
Lemma crop_plan_aspect (w h tw th : Z) (px py : float) :
  0 < w < 2 ^ 48 -> 0 < h < 2 ^ 48 -> 0 < tw < 2 ^ 48 -> 0 < th < 2 ^ 48 ->
  in_unit_interval px -> in_unit_interval py ->
  exists wide focus_x focus_y extent,
    crop_plan w h tw th px py = Ok (wide, (focus_x, focus_y), extent)
    /\ 0 <= extent <= (if wide then w else h)
    /\ (if wide then - th < extent * th - h * tw < th
        else - tw < extent * tw - w * th < tw)
    /\ (tw = w -> th = h -> wide = true).
Proof.
  intros Hw Hh Htw Hth Hpx Hpy.
  destruct (focus_pixel_total w px Hw Hpx) as [fx Hfx].
  destruct (focus_pixel_total h py Hh Hpy) as [fy Hfy].
  destruct (py_float_normal w Hw) as (w' & Ew & Nw & Vw).
  destruct (py_float_normal h Hh) as (h' & Eh & Nh & Vh).
  destruct (py_float_normal tw Htw) as (tw' & Etw & Ntw & Vtw).
  destruct (py_float_normal th Hth) as (th' & Eth & Nth & Vth).
  destruct (SFdiv_normal w' h' _ _ _ _ Nw Nh) as (orig & Eo & No & Vo); [lia|lia|].
  destruct (SFdiv_normal tw' th' _ _ _ _ Ntw Nth) as (target & Et & Nt & Vt); [lia|lia|].
  simpl in No, Nt.
  assert (Hsame : tw = w -> th = h -> py_ge orig target = true).
  { intros -> ->. rewrite Ew in Etw. injection Etw as <-.
    rewrite Eh in Eth. injection Eth as <-.
    rewrite Eo in Et. injection Et as <-. by eapply py_ge_refl. }
  unfold crop_plan. rewrite Hfx, Hfy, Ew, Eh; simpl. rewrite Eo, Etw, Eth; simpl.
  rewrite Et; simpl.
  pose proof (py_ge_normal orig target _ _ _ _ No Nt) as Hge.
  pose proof (normal_pos _ _ _ No) as Hopos.
  pose proof (normal_pos _ _ _ Nt) as Htpos.
  assert (HW : (0 < IZR w < 281474976710656)%R).
  { split; [apply IZR_lt; lia|]. apply IZR_lt. change 281474976710656 with (2 ^ 48). lia. }
  assert (HH : (0 < IZR h < 281474976710656)%R).
  { split; [apply IZR_lt; lia|]. apply IZR_lt. change 281474976710656 with (2 ^ 48). lia. }
  assert (HTW : (0 < IZR tw)%R) by (apply IZR_lt; lia).
  assert (HTH : (0 < IZR th)%R) by (apply IZR_lt; lia).
  rewrite Vw, Vh in Vo. rewrite Vtw, Vth in Vt.
  destruct (py_ge orig target).
  - (* trimmed on the left and on the right *)
    destruct (SFmul_normal target h' _ _ _ _ Nt Nh) as [Nx Vx]; [lia|lia|].
    simpl in Nx. rewrite Vh in Vx.
    destruct (SFadd_half_normal _ _ _ Nx) as [Ny Vy]; [lia|lia|].
    destruct (py_int_normal_floor _ _ _ Ny) as (z & Ez & Hz0 & Hz).
    unfold round_half_up. rewrite Ez; simpl.
    exists true, fx, fy, z. split; [reflexivity|].
    set (T := (IZR tw / IZR th * IZR h)%R).
    set (A := (F2R target * IZR h)%R) in *.
    assert (HA1 : (A <= IZR w * (1 + eps))%R).
    { apply Rle_trans with (F2R orig * IZR h)%R.
      - apply Rmult_le_compat_r; lra.
      - apply Rle_trans with (IZR w / IZR h * (1 + eps) * IZR h)%R.
        + apply Rmult_le_compat_r; lra.
        + right. field. lra. }
    assert (HA2 : (T * (1 - eps) <= A <= T * (1 + eps))%R).
    { unfold T, A. split.
      - replace (IZR tw / IZR th * IZR h * (1 - eps))%R
          with (IZR tw / IZR th * (1 - eps) * IZR h)%R by ring.
        apply Rmult_le_compat_r; lra.
      - replace (IZR tw / IZR th * IZR h * (1 + eps))%R
          with (IZR tw / IZR th * (1 + eps) * IZR h)%R by ring.
        apply Rmult_le_compat_r; lra. }
    set (X := F2R (py_mul target h')) in *.
    set (Y := F2R (py_add (py_mul target h') half)) in *.
    assert (HT : (IZR z - 1 < T < IZR z + 1)%R).
    { rewrite eps_value in *. lra. }
    assert (HTth : (T * IZR th = IZR h * IZR tw)%R) by (unfold T; field; lra).
    assert (Hup : (IZR (z * th - h * tw) < IZR th)%R).
    { rewrite minus_IZR, !mult_IZR, <- HTth.
      assert ((IZR z - T) * IZR th < 1 * IZR th)%R
        by (apply Rmult_lt_compat_r; lra). lra. }
    assert (Hlo : (IZR (- th) < IZR (z * th - h * tw))%R).
    { rewrite opp_IZR, minus_IZR, !mult_IZR, <- HTth.
      assert ((T - IZR z) * IZR th < 1 * IZR th)%R
        by (apply Rmult_lt_compat_r; lra). lra. }
    apply lt_IZR in Hup, Hlo.
    assert (Hext : z <= w).
    { assert (Hlt : (IZR z < IZR (w + 1))%R) by (rewrite plus_IZR, eps_value in *; lra).
      apply lt_IZR in Hlt. lia. }
    repeat split; try done; lia.
  - (* trimmed at the top and at the bottom *)
    destruct (SFdiv_normal w' target _ _ _ _ Nw Nt) as (q & Eq & Nq & Vq); [lia|lia|].
    simpl in Nq. rewrite Vw in Vq. rewrite Eq; simpl.
    destruct (SFadd_half_normal _ _ _ Nq) as [Ny Vy]; [lia|lia|].
    destruct (py_int_normal_floor _ _ _ Ny) as (z & Ez & Hz0 & Hz).
    unfold round_half_up. rewrite Ez; simpl.
    exists false, fx, fy, z. split; [reflexivity|].
    set (Q0 := (IZR w / F2R target)%R) in *.
    set (T := (IZR w * IZR th / IZR tw)%R).
    set (T0 := (IZR tw / IZR th)%R) in *.
    assert (HT0 : (0 < T0)%R) by (unfold T0; apply Rdiv_lt_0_compat; lra).
    assert (HQ0t : (Q0 * F2R target = IZR w)%R) by (unfold Q0; field; lra).
    assert (HTT0 : (T * T0 = IZR w)%R) by (unfold T, T0; field; lra).
    assert (HQ0pos : (0 < Q0)%R) by (unfold Q0; apply Rdiv_lt_0_compat; lra).
    assert (HQh : (Q0 * (1 - eps) <= IZR h)%R).
    { apply (Rmult_le_reg_l (F2R target)); [done|].
      apply Rle_trans with (IZR w * (1 - eps))%R.
      - right. unfold Q0. field. lra.
      - apply Rle_trans with (F2R orig * IZR h)%R.
        + apply Rle_trans with (IZR w / IZR h * (1 - eps) * IZR h)%R.
          * right. field. lra.
          * apply Rmult_le_compat_r; lra.
        + apply Rmult_le_compat_r; lra. }
    assert (HTQ1 : (T <= Q0 * (1 + eps))%R).
    { apply (Rmult_le_reg_r T0); [done|]. rewrite HTT0, <- HQ0t.
      replace (Q0 * (1 + eps) * T0)%R with (Q0 * (T0 * (1 + eps)))%R by ring.
      apply Rmult_le_compat_l; lra. }
    assert (HTQ2 : (Q0 * (1 - eps) <= T)%R).
    { apply (Rmult_le_reg_r T0); [done|]. rewrite HTT0, <- HQ0t.
      replace (Q0 * (1 - eps) * T0)%R with (Q0 * (T0 * (1 - eps)))%R by ring.
      apply Rmult_le_compat_l; lra. }
    set (Q := F2R q) in *.
    set (Y := F2R (py_add q half)) in *.
    assert (HT : (IZR z - 1 < T < IZR z + 1)%R).
    { rewrite eps_value in *. lra. }
    assert (HTtw : (T * IZR tw = IZR w * IZR th)%R) by (unfold T; field; lra).
    assert (Hup : (IZR (z * tw - w * th) < IZR tw)%R).
    { rewrite minus_IZR, !mult_IZR, <- HTtw.
      assert ((IZR z - T) * IZR tw < 1 * IZR tw)%R
        by (apply Rmult_lt_compat_r; lra). lra. }
    assert (Hlo : (IZR (- tw) < IZR (z * tw - w * th))%R).
    { rewrite opp_IZR, minus_IZR, !mult_IZR, <- HTtw.
      assert ((T - IZR z) * IZR tw < 1 * IZR tw)%R
        by (apply Rmult_lt_compat_r; lra). lra. }
    apply lt_IZR in Hup, Hlo.
    assert (Hext : z <= h).
    { assert (Hlt : (IZR z < IZR (h + 1))%R) by (rewrite plus_IZR, eps_value in *; lra).
      apply lt_IZR in Hlt. lia. }
    repeat split; try done; lia.
Qed.

(** The rectangle has the aspect ratio of the target, within a pixel. *)
Lemma crop_boundaries_aspect (w h tw th : Z) (px py : float) :
  0 < w < 2 ^ 48 -> 0 < h < 2 ^ 48 -> 0 < tw < 2 ^ 48 -> 0 < th < 2 ^ 48 ->
  in_unit_interval px -> in_unit_interval py ->
  exists x0 y0 x1 y1,
    crop_boundaries (w, h) (px, py) tw th = Ok (x0, y0, x1, y1)
    /\ ((y0 = 0 /\ y1 = h /\ - th < (x1 - x0) * th - h * tw < th)
        \/ (x0 = 0 /\ x1 = w /\ - tw < (y1 - y0) * tw - w * th < tw)).
Proof.
  intros Hw Hh Htw Hth Hpx Hpy.
  destruct (crop_plan_aspect w h tw th px py Hw Hh Htw Hth Hpx Hpy)
    as (wide & fx & fy & extent & Hplan & Hext & Haspect & _).
  rewrite crop_boundaries_plan, Hplan. simpl.
  unfold shifted, centred; simpl.
  destruct wide; repeat case_decide; do 4 eexists; (split; [reflexivity|]);
    [left|left|left|right|right|right];
    (split; [reflexivity|]); (split; [reflexivity|]);
    match goal with
    | |- _ < ?a * _ - _ < _ => replace a with extent by lia
    end; exact Haspect.
Qed.

(** A target of the size of the source: the whole image. *)
Lemma crop_boundaries_own_size (w h : Z) (px py : float) :
  0 < w < 2 ^ 48 -> 0 < h < 2 ^ 48 ->
  in_unit_interval px -> in_unit_interval py ->
  crop_boundaries (w, h) (px, py) w h = Ok (0, 0, w, h).
Proof.
  intros Hw Hh Hpx Hpy.
  destruct (crop_plan_aspect w h w h px py Hw Hh Hw Hh Hpx Hpy)
    as (wide & fx & fy & extent & Hplan & Hext & Haspect & Hwide).
  rewrite (Hwide eq_refl eq_refl) in *.
  assert (Hsame : extent = w) by nia.
  rewrite crop_boundaries_plan, Hplan. simpl.
  unfold shifted, centred; simpl. subst extent.
  repeat case_decide; f_equal; repeat f_equal; lia.
Qed.

Lemma in_unit_interval_cases (x : float) :
  in_unit_interval x ->
  x = S754_zero false \/ x = S754_zero true \/ exists m e, x = S754_finite false m e.
Proof.
  intros (Hvalid & H0 & H1).
  destruct x as [[|]|[|]| |[|] m e]; try discriminate; eauto.
Qed.

(** The focus pixel along an axis of extent zero is zero. *)
Lemma focus_pixel_zero (x : float) : in_unit_interval x -> focus_pixel 0 x = Ok 0.
Proof.
  intros Hx.
  destruct (in_unit_interval_cases x Hx) as [->|[->|(m & e & ->)]]; reflexivity.
Qed.


(** The rounding step on a mantissa that stands for at most [n]: the int
    of the result is between 0 and [n]. *)
Lemma binary_round_aux_int_le (mx : positive) (ex n : Z) (lx : location) :
  ex < 0 -> 0 <= n < 2 ^ 48 -> Z.pos mx <= n * 2 ^ (- ex) ->
  exists z,
    py_int (binary_round_aux prec emax false (Z.pos mx) ex lx) = Ok z /\ 0 <= z <= n.
Proof.
  intros Hex Hn Hmx.
  pose proof (digits2_pos_bounds mx) as [Hdlo Hdhi].
  assert (Hd1 : 1 <= Z.pos (digits2_pos mx)) by lia.
  assert (Ha : 0 < 2 ^ (- ex)) by (apply Z.pow_pos_nonneg; lia).
  assert (Hd : Z.pos (digits2_pos mx) + ex <= 48).
  { assert (Hlt : 2 ^ (Z.pos (digits2_pos mx) - 1) < 2 ^ (48 + - ex)).
    { rewrite (Z.pow_add_r 2 48) by lia. nia. }
    apply Z.pow_lt_mono_r_iff in Hlt; lia. }
  pose proof (binary_round_aux_finite false mx ex lx ltac:(lia) ltac:(lia)) as Hfin.
  revert Hfin.
  set (d := Z.pos (digits2_pos mx)) in *.
  unfold binary_round_aux, shr_fexp. rewrite Zdigits2_pos. fold d.
  set (n1 := fexp prec emax (d + ex) - ex).
  destruct (shr_spec (shr_record_of_loc (Z.pos mx) lx) ex n1) as [Hm1 He1].
  { rewrite shr_record_of_loc_m. lia. }
  destruct (shr (shr_record_of_loc (Z.pos mx) lx) ex n1) as [mrs1 e1].
  simpl in Hm1, He1. rewrite shr_record_of_loc_m in Hm1.
  set (k := Z.max n1 0) in *.
  assert (Hk : 0 <= k) by lia.
  assert (Hke : k < - ex).
  { unfold k, n1, fexp, SpecFloat.emin, prec, emax. lia. }
  assert (Hpk : 0 < 2 ^ k) by (apply Z.pow_pos_nonneg; lia).
  assert (Hm1b : 0 <= shr_m mrs1 /\ shr_m mrs1 * 2 ^ k <= Z.pos mx).
  { rewrite Hm1. split; [apply Z.div_pos; lia|].
    rewrite Z.mul_comm. apply Z.mul_div_le. lia. }
  pose proof (round_nearest_even_range (shr_m mrs1) (loc_of_shr_record mrs1)) as Hm2.
  set (m2 := round_nearest_even (shr_m mrs1) (loc_of_shr_record mrs1)) in *.
  set (n2 := fexp prec emax (Zdigits2 m2 + e1) - e1).
  destruct (shr_spec (shr_record_of_loc m2 loc_Exact) e1 n2) as [Hm3 He3].
  { simpl. lia. }
  destruct (shr (shr_record_of_loc m2 loc_Exact) e1 n2) as [mrs3 e3].
  simpl in Hm3, He3.
  set (k2 := Z.max n2 0) in *.
  assert (Hk2 : 0 <= k2) by lia.
  assert (Hpk2 : 0 < 2 ^ k2) by (apply Z.pow_pos_nonneg; lia).
  assert (Hm3b : shr_m mrs3 * 2 ^ k2 <= m2).
  { rewrite Hm3, Z.mul_comm. apply Z.mul_div_le. lia. }
  destruct (shr_m mrs3) as [|m3|m3] eqn:Em3.
  - intros _. exists 0. split; [reflexivity|lia].
  - destruct (Z.leb e3 (emax - prec)); [intros _|discriminate].
    (* the result is [m3 * 2^e3], with [e3 = ex + k + k2] *)
    assert (Hbound : Z.pos m3 * 2 ^ k2 * 2 ^ k <= n * 2 ^ (- ex) + 2 ^ k) by nia.
    unfold py_int. destruct e3 as [|p|p].
    + eexists; split; [reflexivity|]. rewrite Z.pow_0_r, Z.mul_1_r.
      assert (Hsum : - ex = k + k2) by lia.
      rewrite Hsum, Z.pow_add_r in Hbound, Ha by lia.
      assert (Hlt : 2 ^ k < 2 ^ k * 2 ^ k2).
      { rewrite <- Z.pow_add_r, <- Hsum by lia.
        apply Z.pow_lt_mono_r; lia. }
      split; [lia|]. nia.
    + eexists; split; [reflexivity|].
      assert (Hp : 0 < 2 ^ Z.pos p) by (apply Z.pow_pos_nonneg; lia).
      assert (Hsum : k + k2 = - ex + Z.pos p) by lia.
      assert (Hprod : 2 ^ k * 2 ^ k2 = 2 ^ (- ex) * 2 ^ Z.pos p).
      { rewrite <- !Z.pow_add_r by lia. f_equal. lia. }
      assert (Hlt : 2 ^ k < 2 ^ (- ex)) by (apply Z.pow_lt_mono_r; lia).
      split; [lia|]. nia.
    + eexists; split; [reflexivity|].
      assert (Hp : 0 < 2 ^ Z.pos p) by (apply Z.pow_pos_nonneg; lia).
      assert (Hsum : - ex = k + k2 + Z.pos p) by lia.
      assert (Hprod : 2 ^ (- ex) = 2 ^ k * 2 ^ k2 * 2 ^ Z.pos p).
      { rewrite <- !Z.pow_add_r by lia. f_equal. lia. }
      split; [apply Z.div_pos; lia|].
      assert (Hm3lt : Z.pos m3 < (n + 1) * 2 ^ Z.pos p).
      { assert (HB : 2 ^ k <= 2 ^ k * 2 ^ k2) by nia.
        assert (HP2 : 2 <= 2 ^ Z.pos p).
        { change 2 with (2 ^ 1) at 1. apply Z.pow_le_mono_r; lia. }
        rewrite Hprod in Hbound.
        set (B := 2 ^ k * 2 ^ k2) in *.
        assert (HBpos : 0 < B) by (unfold B; nia).
        apply (Z.mul_lt_mono_pos_r B); [done|].
        replace (Z.pos m3 * 2 ^ k2 * 2 ^ k) with (Z.pos m3 * B) in Hbound
          by (unfold B; ring).
        replace (n * (2 ^ k * 2 ^ k2 * 2 ^ Z.pos p)) with (n * 2 ^ Z.pos p * B)
          in Hbound by (unfold B; ring).
        nia. }
      assert (Hdiv : Z.pos m3 / 2 ^ Z.pos p < n + 1)
        by (apply Z.div_lt_upper_bound; lia).
      lia.
  - exfalso.
    assert (0 <= m2 / 2 ^ k2); [|lia].
    apply Z.div_pos; lia.
Qed.

(** A fraction within [0, 1] that is not zero: its mantissa and exponent. *)
Lemma unit_interval_mantissa (mx : positive) (ex : Z) :
  in_unit_interval (S754_finite false mx ex) ->
  ex <= -52 /\ Z.pos mx <= 2 ^ (- ex).
Proof.
  intros (Hvalid & H0 & H1).
  pose proof (digits2_pos_bounds mx) as [_ Hmx].
  assert (Hdx : Z.pos (digits2_pos mx) <= 53).
  { simpl in Hvalid. unfold bounded, canonical_mantissa in Hvalid.
    apply andb_prop in Hvalid as [Hc _]. apply Z.eqb_eq in Hc.
    unfold fexp, SpecFloat.emin, prec, emax in Hc. lia. }
  clear Hvalid H0.
  unfold SFleb, SFcompare, one in H1.
  destruct (Z.compare_spec ex (-52)) as [Heq|Hlt|Hgt]; [| |discriminate].
  - split; [lia|].
    rewrite Pos.compare_cont_spec in H1.
    destruct (Pos.compare_spec mx 4503599627370496) as [Hm'|Hm'|Hm'];
      [| |discriminate]; clear H1.
    + assert (H252 : 2 ^ (- ex) = Z.pos 4503599627370496)
        by (rewrite Heq; vm_compute; reflexivity).
      rewrite Hm', H252. apply Z.le_refl.
    + assert (H252 : 2 ^ (- ex) = Z.pos 4503599627370496)
        by (rewrite Heq; vm_compute; reflexivity).
      rewrite H252. apply Z.lt_le_incl, Pos2Z.pos_lt_pos, Hm'.
  - split; [lia|].
    apply Z.lt_le_incl. eapply Z.lt_le_trans; [exact Hmx|].
    apply Z.pow_le_mono_r; lia.
Qed.

(** The focus pixel lies between 0 and the extent of the axis. *)
Lemma focus_pixel_bounds (n : Z) (x : float) :
  0 < n < 2 ^ 48 -> in_unit_interval x ->
  exists z, focus_pixel n x = Ok z /\ 0 <= z <= n.
Proof.
  intros Hn Hx.
  destruct (py_float_exact n) as (m & e & Heq & Hd & He & Hm); [lia|].
  assert (Hlog : 0 <= Z.log2 n < 48).
  { split; [apply Z.log2_nonneg|]. apply Z.log2_lt_pow2; lia. }
  unfold focus_pixel. rewrite Heq. simpl.
  destruct (in_unit_interval_cases x Hx) as [->|[->|(mx & ex & ->)]].
  - exists 0. split; [reflexivity|lia].
  - exists 0. split; [reflexivity|lia].
  - destruct (unit_interval_mantissa mx ex Hx) as [Hex Hmx].
    unfold py_mul, SFmul. simpl xorb.
    apply binary_round_aux_int_le; [lia|lia|].
    assert (Hp1 : 0 < 2 ^ (- e)) by (apply Z.pow_pos_nonneg; lia).
    rewrite Pos2Z.inj_mul, Hm.
    replace (- (e + ex)) with (- e + - ex) by lia.
    rewrite Z.pow_add_r by lia. nia.
Qed.

(** The focus of a plan is the focus pixel of each axis. *)
Lemma crop_plan_focus (w h tw th : Z) (px py : float) (wide : bool)
    (focus_x focus_y extent : Z) :
  crop_plan w h tw th px py = Ok (wide, (focus_x, focus_y), extent) ->
  focus_pixel w px = Ok focus_x /\ focus_pixel h py = Ok focus_y.
Proof.
  unfold crop_plan.
  destruct (focus_pixel w px) as [fx|]; simpl; [|discriminate].
  destruct (focus_pixel h py) as [fy|]; simpl; [|discriminate].
  destruct (py_float w) as [w'|]; simpl; [|discriminate].
  destruct (py_float h) as [h'|]; simpl; [|discriminate].
  destruct (py_truediv w' h') as [orig|]; simpl; [|discriminate].
  destruct (py_float tw) as [tw'|]; simpl; [|discriminate].
  destruct (py_float th) as [th'|]; simpl; [|discriminate].
  destruct (py_truediv tw' th') as [target|]; simpl; [|discriminate].
  destruct (py_ge orig target); simpl.
  - destruct (round_half_up _); simpl; [|discriminate]. by intros [= _ <- <- _].
  - destruct (py_truediv w' target); simpl; [|discriminate].
    destruct (round_half_up _); simpl; [|discriminate]. by intros [= _ <- <- _].
Qed.

(** The rectangle contains the focus pixel. *)
Lemma crop_boundaries_focus (w h tw th : Z) (px py : float) :
  0 < w < 2 ^ 48 -> 0 < h < 2 ^ 48 -> 0 < tw < 2 ^ 48 -> 0 < th < 2 ^ 48 ->
  in_unit_interval px -> in_unit_interval py ->
  exists focus_x focus_y x0 y0 x1 y1,
    focus_pixel w px = Ok focus_x
    /\ focus_pixel h py = Ok focus_y
    /\ crop_boundaries (w, h) (px, py) tw th = Ok (x0, y0, x1, y1)
    /\ 0 <= focus_x <= w
    /\ 0 <= focus_y <= h
    /\ x0 <= focus_x <= x1
    /\ y0 <= focus_y <= y1.
Proof.
  intros Hw Hh Htw Hth Hpx Hpy.
  destruct (crop_plan_aspect w h tw th px py Hw Hh Htw Hth Hpx Hpy)
    as (wide & fx & fy & extent & Hplan & Hext & _ & _).
  destruct (crop_plan_focus _ _ _ _ _ _ _ _ _ _ Hplan) as [Hfx Hfy].
  destruct (focus_pixel_bounds w px Hw Hpx) as (fx' & Hfx' & Hbx).
  destruct (focus_pixel_bounds h py Hh Hpy) as (fy' & Hfy' & Hby).
  rewrite Hfx in Hfx'. injection Hfx' as <-.
  rewrite Hfy in Hfy'. injection Hfy' as <-.
  assert (Hbox : crop_boundaries (w, h) (px, py) tw th =
                   Ok (planned_rectangle w h (wide, (fx, fy), extent))).
  { by rewrite crop_boundaries_plan, Hplan. }
  destruct (planned_rectangle w h (wide, (fx, fy), extent))
    as [[[x0 y0] x1] y1] eqn:Hrect.
  exists fx, fy, x0, y0, x1, y1.
  split; [done|]. split; [done|]. split; [done|].
  split; [done|]. split; [done|].
  unfold planned_rectangle, shifted, centred in Hrect; simpl in Hrect.
  assert (Hhalf : 0 <= extent / 2 <= extent).
  { destruct wide; (split; [apply Z.div_pos; lia|apply Z.div_le_upper_bound; lia]). }
  destruct wide; repeat case_decide; injection Hrect as <- <- <- <-; lia.
Qed.

Section CropGeometry.
Context `{Pillow}.

(** The processor of [crop]: the boundaries, [image.crop], [resize], and
    the handler it wraps. *)
Lemma crop_runs_on_boundaries (get_image : Handler) (tw th : Z) (rest : Args) :
  exists processor,
    crop get_image ((tw, th) :: rest) = Ok processor
    /\ forall image context,
        processor image context =
          (boundaries ← crop_boundaries (Image_size image) (ppoi context) tw th;
           cropped ← Image_crop image boundaries;
           resized ← Image_resize cropped (tw, th) BICUBIC;
           get_image resized context).
Proof. eexists; split; reflexivity. Qed.

(** X13: the rectangle has the aspect ratio of the target, within a
    pixel.  For a source and a target whose four dimensions are positive
    and below 2^48 and a point of interest with both fractions in [0, 1],
    the rectangle the processor of [crop] hands [image.crop] either spans
    the full height of the image, with a width within one pixel of
    [h * tw / th], or spans its full width, with a height within one pixel
    of [w * th / tw]. *)
Theorem crop_rectangle_has_target_aspect
    (get_image : Handler) (tw th : Z) (rest : Args)
    (image : Image) (context : Context_) :
  0 < (Image_size image).1 < 2 ^ 48 ->
  0 < (Image_size image).2 < 2 ^ 48 ->
  0 < tw < 2 ^ 48 ->
  0 < th < 2 ^ 48 ->
  in_unit_interval (ppoi context).1 ->
  in_unit_interval (ppoi context).2 ->
  exists processor x0 y0 x1 y1,
    crop get_image ((tw, th) :: rest) = Ok processor
    /\ processor image context =
         (cropped ← Image_crop image (x0, y0, x1, y1);
          resized ← Image_resize cropped (tw, th) BICUBIC;
          get_image resized context)
    /\ crop_boundaries (Image_size image) (ppoi context) tw th = Ok (x0, y0, x1, y1)
    /\ ((y0 = 0 /\ y1 = (Image_size image).2
         /\ - th < (x1 - x0) * th - (Image_size image).2 * tw < th)
        \/ (x0 = 0 /\ x1 = (Image_size image).1
            /\ - tw < (y1 - y0) * tw - (Image_size image).1 * th < tw)).
Proof.
  destruct (crop_runs_on_boundaries get_image tw th rest) as (processor & Hc & Hrun).
  specialize (Hrun image context).
  destruct (Image_size image) as [w h]. destruct (ppoi context) as [px py].
  simpl. intros Hw Hh Htw Hth Hpx Hpy.
  destruct (crop_boundaries_aspect w h tw th px py Hw Hh Htw Hth Hpx Hpy)
    as (x0 & y0 & x1 & y1 & Hbox & Haspect).
  exists processor, x0, y0, x1, y1. split; [exact Hc|].
  split; [by rewrite Hrun, Hbox|]. split; [exact Hbox|exact Haspect].
Qed.

(** X14: cropping an image to its own size takes the whole image.  For
    an image whose dimensions are positive and below 2^48 and any point of
    interest with both fractions in [0, 1], the processor of [crop] built
    for the size of the image hands [image.crop] the rectangle
    [(0, 0, w, h)] and resizes the result to [(w, h)]. *)
Theorem crop_to_own_size_takes_whole_image
    (get_image : Handler) (rest : Args) (image : Image) (context : Context_) :
  0 < (Image_size image).1 < 2 ^ 48 ->
  0 < (Image_size image).2 < 2 ^ 48 ->
  in_unit_interval (ppoi context).1 ->
  in_unit_interval (ppoi context).2 ->
  exists processor,
    crop get_image (Image_size image :: rest) = Ok processor
    /\ processor image context =
         (cropped ← Image_crop image
                      (0, 0, (Image_size image).1, (Image_size image).2);
          resized ← Image_resize cropped (Image_size image) BICUBIC;
          get_image resized context).
Proof.
  destruct (Image_size image) as [w h] eqn:Hs.
  destruct (crop_runs_on_boundaries get_image w h rest) as (processor & Hc & Hrun).
  specialize (Hrun image context). rewrite Hs in Hrun.
  destruct (ppoi context) as [px py].
  simpl. intros Hw Hh Hpx Hpy.
  exists processor. split; [exact Hc|].
  by rewrite Hrun, (crop_boundaries_own_size w h px py Hw Hh Hpx Hpy).
Qed.

(** X15: a height of zero.  [crop] builds its processor for a target of
    height 0, as the size is not checked; the processor then raises
    [ZeroDivisionError] from [float(width) / float(height)], and so does
    every processor of [crop] on an image of height 0, from the aspect
    ratio of the image.  In both cases neither [image.crop] nor the
    wrapped handler is called.  The width of the image is positive and
    below 2^48, the width of the target is at least 0 and below 2^48, and
    the point of interest has both fractions in [0, 1], so that what is
    computed before the division succeeds. *)
Theorem crop_zero_height_divides_by_zero
    (get_image : Handler) (tw th : Z) (rest : Args)
    (image : Image) (context : Context_) :
  0 < (Image_size image).1 < 2 ^ 48 ->
  0 <= (Image_size image).2 < 2 ^ 48 ->
  0 <= tw < 2 ^ 48 ->
  in_unit_interval (ppoi context).1 ->
  in_unit_interval (ppoi context).2 ->
  (Image_size image).2 = 0 \/ th = 0 ->
  exists processor,
    crop get_image ((tw, th) :: rest) = Ok processor
    /\ crop_boundaries (Image_size image) (ppoi context) tw th = Raise ZeroDivisionError
    /\ processor image context = Raise ZeroDivisionError.
Proof.
  destruct (crop_runs_on_boundaries get_image tw th rest) as (processor & Hc & Hrun).
  specialize (Hrun image context).
  destruct (Image_size image) as [w h]. destruct (ppoi context) as [px py].
  simpl. intros Hw Hh Htw Hpx Hpy Hzero.
  exists processor. split; [exact Hc|].
  assert (Hbox : crop_boundaries (w, h) (px, py) tw th = Raise ZeroDivisionError).
  { destruct (focus_pixel_total w px Hw Hpx) as [fx Hfx].
    destruct (py_float_normal w Hw) as (w' & Ew & Nw & Vw).
    rewrite crop_boundaries_plan. unfold crop_plan.
    destruct (Z.eq_dec h 0) as [->|Hne].
    - rewrite Hfx, (focus_pixel_zero py Hpy), Ew; simpl.
      destruct Nw as (m & e & -> & _). reflexivity.
    - destruct Hzero as [?| ->]; [done|].
      assert (Hh' : 0 < h < 2 ^ 48) by lia.
      destruct (focus_pixel_total h py Hh' Hpy) as [fy Hfy].
      destruct (py_float_normal h Hh') as (h' & Eh & Nh & Vh).
      destruct (SFdiv_normal w' h' _ _ _ _ Nw Nh) as (orig & Eo & No & Vo); [lia|lia|].
      assert (Etw : exists tw', py_float tw = Ok tw').
      { destruct (Z.eq_dec tw 0) as [->|Hne']; [by eexists|].
        destruct (py_float_normal tw) as (tw' & Etw & _); [lia|eauto]. }
      destruct Etw as [tw' Etw].
      rewrite Hfx, Hfy, Ew, Eh; simpl. rewrite Eo, Etw; simpl. reflexivity. }
  split; [exact Hbox|]. by rewrite Hrun, Hbox.
Qed.

(** X16: the rectangle contains the focus.  For a source and a target
    whose four dimensions are positive and below 2^48 and a point of
    interest with both fractions in [0, 1], the focus pixel
    [(int(w * px), int(h * py))] lies within the image and within the
    rectangle the processor of [crop] hands [image.crop], edges included:
    shifting the window never moves it off the point of interest. *)
Theorem crop_rectangle_contains_focus
    (get_image : Handler) (tw th : Z) (rest : Args)
    (image : Image) (context : Context_) :
  0 < (Image_size image).1 < 2 ^ 48 ->
  0 < (Image_size image).2 < 2 ^ 48 ->
  0 < tw < 2 ^ 48 ->
  0 < th < 2 ^ 48 ->
  in_unit_interval (ppoi context).1 ->
  in_unit_interval (ppoi context).2 ->
  exists processor focus_x focus_y x0 y0 x1 y1,
    crop get_image ((tw, th) :: rest) = Ok processor
    /\ processor image context =
         (cropped ← Image_crop image (x0, y0, x1, y1);
          resized ← Image_resize cropped (tw, th) BICUBIC;
          get_image resized context)
    /\ crop_boundaries (Image_size image) (ppoi context) tw th = Ok (x0, y0, x1, y1)
    /\ focus_pixel (Image_size image).1 (ppoi context).1 = Ok focus_x
    /\ focus_pixel (Image_size image).2 (ppoi context).2 = Ok focus_y
    /\ 0 <= focus_x <= (Image_size image).1
    /\ 0 <= focus_y <= (Image_size image).2
    /\ x0 <= focus_x <= x1
    /\ y0 <= focus_y <= y1.
Proof.
  destruct (crop_runs_on_boundaries get_image tw th rest) as (processor & Hc & Hrun).
  specialize (Hrun image context).
  destruct (Image_size image) as [w h]. destruct (ppoi context) as [px py].
  simpl. intros Hw Hh Htw Hth Hpx Hpy.
  destruct (crop_boundaries_focus w h tw th px py Hw Hh Htw Hth Hpx Hpy)
    as (fx & fy & x0 & y0 & x1 & y1 & Hfx & Hfy & Hbox & Hrest).
  exists processor, fx, fy, x0, y0, x1, y1. split; [exact Hc|].
  split; [by rewrite Hrun, Hbox|]. split; [exact Hbox|].
  by repeat split; try apply Hrest.
Qed.

End CropGeometry.

Section CropGeometryExamples.
Import Reference.

Lemma crop_rectangle_has_target_aspect_witness :
  exists processor x0 y0 x1 y1,
    crop identity_handler [(200, 200)] = Ok processor
    /\ processor sample_image (sample_context half half) =
         (cropped ← Image_crop sample_image (x0, y0, x1, y1);
          resized ← Image_resize cropped (200, 200) BICUBIC;
          identity_handler resized (sample_context half half))
    /\ crop_boundaries (1000, 500) (half, half) 200 200 = Ok (x0, y0, x1, y1)
    /\ ((y0 = 0 /\ y1 = 500 /\ - 200 < (x1 - x0) * 200 - 500 * 200 < 200)
        \/ (x0 = 0 /\ x1 = 1000 /\ - 200 < (y1 - y0) * 200 - 1000 * 200 < 200)).
Proof.
  apply (crop_rectangle_has_target_aspect (H := pillow) identity_handler 200 200 []
           sample_image (sample_context half half));
    first [exact half_in_unit_interval | simpl; lia].
Defined.

Lemma crop_to_own_size_takes_whole_image_witness :
  exists processor,
    crop identity_handler [(1000, 500)] = Ok processor
    /\ processor sample_image (sample_context one_hundredth half) =
         (cropped ← Image_crop sample_image (0, 0, 1000, 500);
          resized ← Image_resize cropped (1000, 500) BICUBIC;
          identity_handler resized (sample_context one_hundredth half)).
Proof.
  apply (crop_to_own_size_takes_whole_image (H := pillow) identity_handler []
           sample_image (sample_context one_hundredth half));
    first [exact half_in_unit_interval | exact one_hundredth_in_unit_interval
          | simpl; lia].
Defined.

Lemma crop_zero_height_divides_by_zero_witness :
  exists processor,
    crop identity_handler [(200, 0)] = Ok processor
    /\ crop_boundaries (1000, 500) (half, half) 200 0 = Raise ZeroDivisionError
    /\ processor sample_image (sample_context half half) = Raise ZeroDivisionError.
Proof.
  apply (crop_zero_height_divides_by_zero (H := pillow) identity_handler 200 0 []
           sample_image (sample_context half half));
    first [exact half_in_unit_interval | by right | simpl; lia].
Defined.

Lemma crop_rectangle_contains_focus_witness :
  exists processor focus_x focus_y x0 y0 x1 y1,
    crop identity_handler [(200, 200)] = Ok processor
    /\ processor sample_image (sample_context one_hundredth half) =
         (cropped ← Image_crop sample_image (x0, y0, x1, y1);
          resized ← Image_resize cropped (200, 200) BICUBIC;
          identity_handler resized (sample_context one_hundredth half))
    /\ crop_boundaries (1000, 500) (one_hundredth, half) 200 200 = Ok (x0, y0, x1, y1)
    /\ focus_pixel 1000 one_hundredth = Ok focus_x
    /\ focus_pixel 500 half = Ok focus_y
    /\ 0 <= focus_x <= 1000
    /\ 0 <= focus_y <= 500
    /\ x0 <= focus_x <= x1
    /\ y0 <= focus_y <= y1.
Proof.
  apply (crop_rectangle_contains_focus (H := pillow) identity_handler 200 200 []
           sample_image (sample_context one_hundredth half));
    first [exact half_in_unit_interval | exact one_hundredth_in_unit_interval
          | simpl; lia].
Defined.

End CropGeometryExamples.
